(** * Card persistence core of ntlind/persist

    A shallow embedding of [backend/core/card_processing.py]:
    [load_cards], [update_cards] and [add_cards] over the SQLite schema
    of [backend/tests/test_card_processing.py] (tables [answers],
    [cards], [tags], [card_tags]).

    Modelling choices:
    - a table is the list of its rows in rowid order; an
      [INTEGER PRIMARY KEY] chosen by SQLite is [max rowid + 1]
      ([1] on an empty table);
    - strings are Stdlib [string]s; Python's [str.lower] is the
      parameter [lower] of the writers (section [Writers]); the examples
      instantiate it with [ascii_lower], which agrees with it on ASCII
      text;
    - Python integers are unbounded, SQLite's are 64-bit: binding an
      integer outside that range raises [OverflowError] before the
      statement runs;
    - a card's [card_tags] rows are read through the index of their
      primary key [(card_id, tag_id)], so by tag identifier;
    - the cursor is a state and error monad over the store; an exception
      is an [Err]; [update_cards] executes [ROLLBACK] on an exception,
      and [add_cards] never reaches [conn.commit()] when an exception
      escapes, so its uncommitted transaction is discarded too;
    - [json.loads] (Python's standard library) is a parameter of
      [load_cards]: [None] stands for a [JSONDecodeError]. *)

From Stdlib Require Import String Ascii List ZArith Bool Lia Permutation.
From Stdlib Require Import DecimalString.
Import ListNotations.
Open Scope string_scope.
Open Scope Z_scope.
Open Scope list_scope.
Set Warnings "-register-all".

(** ** Rows of the four tables *)

Record answers_row := {
  a_id : Z;
  a_correct : Z;
  a_partial : Z;
  a_incorrect : Z
}.

(** [retired] is a [BOOLEAN] column: Python's [True]/[False] are
    stored as the integers [1]/[0]; [images] is a nullable [TEXT]
    column (default ['[]']); [answers_id] is a nullable foreign key. *)
Record card_row := {
  c_id : Z;
  c_front : string;
  c_back : string;
  c_last_asked : string;
  c_next_review : string;
  c_retired : option Z;
  c_streak : Z;
  c_images : option string;
  c_answers_id : option Z
}.

Record tag_row := {
  t_id : Z;
  t_name : string
}.

Record card_tag_row := {
  ct_card_id : Z;
  ct_tag_id : Z
}.

Record store := {
  st_answers : list answers_row;
  st_cards : list card_row;
  st_tags : list tag_row;
  st_card_tags : list card_tag_row
}.

(** ** Inputs and outputs of the three operations *)

Record answers_dict := {
  correct : Z;
  partial : Z;
  incorrect : Z
}.

(** An element of the [cards] argument of [update_cards]. *)
Record card_update := {
  u_id : Z;
  u_front : string;
  u_back : string;
  u_retired : bool;
  u_streak : Z;
  u_answers : answers_dict;
  u_tags : list string
}.

(** An element of the [new_cards] argument of [add_cards]. *)
Record new_card := {
  n_front : string;
  n_back : string;
  n_tags : list string
}.

(** The value returned by [json.loads]. *)
Inductive json :=
| JNull
| JBool (b : bool)
| JNum (z : Z)
| JStr (s : string)
| JArr (l : list json)
| JObj (l : list (string * json)).

(** A dictionary built by [load_cards]. *)
Record card := {
  id : Z;
  front : string;
  back : string;
  last_asked : string;
  next_review : string;
  retired : bool;
  tags : list string;
  images : json;
  answers : answers_dict;
  streak : Z
}.

(** ** The cursor: a state and error monad over the store *)

Inductive error :=
| NotFound (cid : Z)       (* ValueError "Card with ID .. not found" *)
| IntegrityError           (* sqlite3.IntegrityError *)
| TypeError                (* [None[0]] after an empty [fetchone()] *)
| OverflowError.           (* an integer parameter outside 64 bits *)

Inductive result (A : Type) :=
| Ok (a : A)
| Err (e : error).
Arguments Ok {A} a.
Arguments Err {A} e.

Definition M (A : Type) := store -> result (A * store).

Definition ret {A} (a : A) : M A := fun s => Ok (a, s).
Definition raise {A} (e : error) : M A := fun _ => Err e.
Definition bind {A B} (m : M A) (k : A -> M B) : M B :=
  fun s => match m s with
           | Ok (a, s') => k a s'
           | Err e => Err e
           end.

Notation "x <- m ;; k" := (bind m (fun x => k))
  (at level 61, m at next level, right associativity).
Notation "m ;;; k" := (bind m (fun _ => k))
  (at level 61, right associativity).

(** ** SQL statements used by the module *)

(** SQLite's choice of a new [INTEGER PRIMARY KEY]. *)
Definition next_rowid (ids : list Z) : Z :=
  match ids with
  | [] => 1
  | i :: is => fold_left Z.max is i + 1
  end.

(** The integers [sqlite3] can bind: a Python [int] outside the signed
    64-bit range raises [OverflowError: Python int too large to convert
    to SQLite INTEGER]. *)
Definition fits_int64 (z : Z) : bool :=
  (- 2 ^ 63 <=? z) && (z <=? 2 ^ 63 - 1).

(** Python's [str.lower] on an ASCII character. *)
Definition lower_ascii (c : ascii) : ascii :=
  let n := nat_of_ascii c in
  if (65 <=? n)%nat && (n <=? 90)%nat then ascii_of_nat (n + 32) else c.

(** Python's [str.lower] on ASCII text. *)
Fixpoint ascii_lower (s : string) : string :=
  match s with
  | EmptyString => EmptyString
  | String c s' => String (lower_ascii c) (ascii_lower s')
  end.

(** [SELECT id FROM cards WHERE id = ?] followed by [fetchone()]. *)
Definition select_card_id (cid : Z) : M bool :=
  fun s =>
    if fits_int64 cid then
      Ok (existsb (fun c => c_id c =? cid) (st_cards s), s)
    else Err OverflowError.

(** [UPDATE cards SET front = ?, back = ?, retired = ?, streak = ?
    WHERE id = ?]. *)
Definition set_card_fields (u : card_update) (c : card_row) : card_row :=
  {| c_id := c_id c; c_front := u_front u; c_back := u_back u;
     c_last_asked := c_last_asked c; c_next_review := c_next_review c;
     c_retired := Some (Z.b2z (u_retired u)); c_streak := u_streak u;
     c_images := c_images c; c_answers_id := c_answers_id c |}.

Definition update_card_row (u : card_update) : M unit :=
  fun s =>
    if negb (fits_int64 (u_streak u) && fits_int64 (u_id u)) then
      Err OverflowError else
    Ok (tt, {| st_answers := st_answers s;
               st_cards :=
                 map (fun c => if c_id c =? u_id u then set_card_fields u c else c)
                     (st_cards s);
               st_tags := st_tags s;
               st_card_tags := st_card_tags s |}).

(** The scalar sub-query [(SELECT answers_id FROM cards WHERE id = ?)]:
    the first matching row, [NULL] when there is none. *)
Definition answers_ref (cs : list card_row) (cid : Z) : option Z :=
  match find (fun c => c_id c =? cid) cs with
  | Some c => c_answers_id c
  | None => None
  end.

Definition key_matches (key : option Z) (k : Z) : bool :=
  match key with
  | Some k' => k' =? k
  | None => false
  end.

Definition set_answers_counts (u : card_update) (a : answers_row) : answers_row :=
  {| a_id := a_id a; a_correct := correct (u_answers u);
     a_partial := partial (u_answers u); a_incorrect := incorrect (u_answers u) |}.

(** [UPDATE answers SET correct = ?, partial = ?, incorrect = ?
    WHERE id = (SELECT answers_id FROM cards WHERE id = ?)]; a [NULL]
    key matches no row. *)
Definition update_answers_row (u : card_update) : M unit :=
  fun s =>
    if negb (fits_int64 (correct (u_answers u)) &&
             fits_int64 (partial (u_answers u)) &&
             fits_int64 (incorrect (u_answers u)) && fits_int64 (u_id u)) then
      Err OverflowError else
    let key := answers_ref (st_cards s) (u_id u) in
    Ok (tt, {| st_answers :=
                 map (fun a => if key_matches key (a_id a)
                               then set_answers_counts u a else a)
                     (st_answers s);
               st_cards := st_cards s;
               st_tags := st_tags s;
               st_card_tags := st_card_tags s |}).

(** [DELETE FROM card_tags WHERE card_id = ?]. *)
Definition delete_card_tags (cid : Z) : M unit :=
  fun s =>
    if negb (fits_int64 cid) then Err OverflowError else
    Ok (tt, {| st_answers := st_answers s;
               st_cards := st_cards s;
               st_tags := st_tags s;
               st_card_tags :=
                 filter (fun ct => negb (ct_card_id ct =? cid))
                        (st_card_tags s) |}).

(** [INSERT OR IGNORE INTO tags (name) VALUES (?)]: the [UNIQUE]
    constraint on [name] turns the insert of an existing name into a
    no-op. *)
Definition insert_or_ignore_tag (name : string) : M unit :=
  fun s =>
    if existsb (fun t => String.eqb (t_name t) name) (st_tags s) then
      Ok (tt, s)
    else
      Ok (tt, {| st_answers := st_answers s;
                 st_cards := st_cards s;
                 st_tags := st_tags s ++
                   [{| t_id := next_rowid (map t_id (st_tags s));
                       t_name := name |}];
                 st_card_tags := st_card_tags s |}).

(** [SELECT id FROM tags WHERE name = ?] then [cursor.fetchone()[0]]. *)
Definition select_tag_id (name : string) : M Z :=
  fun s =>
    match find (fun t => String.eqb (t_name t) name) (st_tags s) with
    | Some t => Ok (t_id t, s)
    | None => Err TypeError
    end.

Section Writers.

(** Python's [str.lower], applied by both writers to every tag. *)
Variable lower : string -> string.

(** The tag resolution of both writers: lower-case, insert if absent,
    read back the identifier. *)
Definition resolve_tag (tag : string) : M Z :=
  insert_or_ignore_tag (lower tag);;;
  select_tag_id (lower tag).

(** [INSERT INTO card_tags (card_id, tag_id) VALUES (?, ?)]: the
    composite primary key rejects a pair already present. *)
Definition insert_card_tag (cid tid : Z) : M unit :=
  fun s =>
    if existsb (fun ct => (ct_card_id ct =? cid) && (ct_tag_id ct =? tid))
               (st_card_tags s) then
      Err IntegrityError
    else
      Ok (tt, {| st_answers := st_answers s;
                 st_cards := st_cards s;
                 st_tags := st_tags s;
                 st_card_tags := st_card_tags s ++
                   [{| ct_card_id := cid; ct_tag_id := tid |}] |}).

(** The inner loop [for tag in card["tags"]] of both writers. *)
Fixpoint link_tags (cid : Z) (ts : list string) : M unit :=
  match ts with
  | [] => ret tt
  | tag :: ts' =>
      tag_id <- resolve_tag tag;;
      insert_card_tag cid tag_id;;;
      link_tags cid ts'
  end.

(** ** [update_cards] *)

(** One iteration of [for card in cards] inside the transaction. *)
Definition update_one (u : card_update) : M unit :=
  found <- select_card_id (u_id u);;
  if negb found then raise (NotFound (u_id u)) else
  update_card_row u;;;
  update_answers_row u;;;
  delete_card_tags (u_id u);;;
  link_tags (u_id u) (u_tags u).

Fixpoint update_all (cards : list card_update) : M unit :=
  match cards with
  | [] => ret tt
  | u :: us => update_one u;;; update_all us
  end.

(** [BEGIN TRANSACTION], the loop, then [COMMIT]; on an exception,
    [ROLLBACK] and re-raise: the store is the one before the call. *)
Definition update_cards (cards : list card_update) (s : store)
  : result unit * store :=
  match update_all cards s with
  | Ok (_, s') => (Ok tt, s')
  | Err e => (Err e, s)
  end.

(** ** [add_cards] *)

(** [INSERT INTO answers (correct, partial, incorrect) VALUES (0, 0, 0)]
    and [cursor.lastrowid]. *)
Definition insert_answers_zero : M Z :=
  fun s =>
    let aid := next_rowid (map a_id (st_answers s)) in
    Ok (aid, {| st_answers := st_answers s ++
                  [{| a_id := aid; a_correct := 0; a_partial := 0;
                      a_incorrect := 0 |}];
                st_cards := st_cards s;
                st_tags := st_tags s;
                st_card_tags := st_card_tags s |}).

(** The fixed default review date of [add_cards]. *)
Definition default_review_date : string := "2024-01-01".

(** [INSERT INTO cards (front, back, last_asked, next_review, retired,
    streak, answers_id) VALUES (?, ?, '2024-01-01', '2024-01-01', False,
    0, ?)] and [cursor.lastrowid]; [images] takes its column default
    ['[]']. *)
Definition insert_card (nc : new_card) (aid : Z) : M Z :=
  fun s =>
    let cid := next_rowid (map c_id (st_cards s)) in
    Ok (cid, {| st_answers := st_answers s;
                st_cards := st_cards s ++
                  [{| c_id := cid; c_front := n_front nc;
                      c_back := n_back nc;
                      c_last_asked := default_review_date;
                      c_next_review := default_review_date;
                      c_retired := Some 0; c_streak := 0;
                      c_images := Some "[]";
                      c_answers_id := Some aid |}];
                st_tags := st_tags s;
                st_card_tags := st_card_tags s |}).

Definition add_one (nc : new_card) : M unit :=
  answers_id <- insert_answers_zero;;
  card_id <- insert_card nc answers_id;;
  link_tags card_id (n_tags nc).

Fixpoint add_all (new_cards : list new_card) : M unit :=
  match new_cards with
  | [] => ret tt
  | nc :: ncs => add_one nc;;; add_all ncs
  end.

(** The loop then [conn.commit()]; an exception escapes before the
    commit and the open transaction is discarded with the connection. *)
Definition add_cards (new_cards : list new_card) (s : store)
  : result unit * store :=
  match add_all new_cards s with
  | Ok (_, s') => (Ok tt, s')
  | Err e => (Err e, s)
  end.

(** ** [load_cards] *)

(** Python's [str.split(",")]: [""] splits into [[""]]. *)
Fixpoint split_comma (s : string) : list string :=
  match s with
  | EmptyString => [EmptyString]
  | String ch s' =>
      if Ascii.eqb ch "," then EmptyString :: split_comma s'
      else match split_comma s' with
           | w :: ws => String ch w :: ws
           | [] => [String ch EmptyString]
           end
  end.

(** [GROUP_CONCAT(t.name, ',')]: [NULL] when the group has no
    non-[NULL] name. *)
Definition group_concat (names : list string) : option string :=
  match names with
  | [] => None
  | _ => Some (String.concat "," names)
  end.

(** A row of the [SELECT] before [GROUP BY]: the card, its answers row
    and [t.name]. *)
Definition joined_row : Type := (card_row * answers_row * option string)%type.

Definition row_card_id (r : joined_row) : Z := c_id (fst (fst r)).

Definition row_names (rows : list joined_row) : list string :=
  flat_map (fun r => match snd r with Some n => [n] | None => [] end) rows.

(** The [card_tags] rows of one card as SQLite reads them for
    [ct.card_id = ?]: through the index of the primary key
    [(card_id, tag_id)], so by increasing [tag_id]. *)
Fixpoint insert_by_tag (ct : card_tag_row) (l : list card_tag_row)
  : list card_tag_row :=
  match l with
  | [] => [ct]
  | ct' :: l' =>
      if ct_tag_id ct <=? ct_tag_id ct' then ct :: l
      else ct' :: insert_by_tag ct l'
  end.

Fixpoint sort_by_tag (l : list card_tag_row) : list card_tag_row :=
  match l with
  | [] => []
  | ct :: l' => insert_by_tag ct (sort_by_tag l')
  end.

(** [LEFT JOIN card_tags ct ON c.id = ct.card_id
    LEFT JOIN tags t ON ct.tag_id = t.id] for one joined pair of a card
    and its answers row: a row with a [NULL] name when nothing matches. *)
Definition left_join_tags (s : store) (c : card_row) (a : answers_row)
  : list joined_row :=
  match sort_by_tag (filter (fun ct => ct_card_id ct =? c_id c) (st_card_tags s)) with
  | [] => [(c, a, None)]
  | cts =>
      flat_map (fun ct =>
        match filter (fun t => t_id t =? ct_tag_id ct) (st_tags s) with
        | [] => [(c, a, None)]
        | ts => map (fun t => (c, a, Some (t_name t))) ts
        end) cts
  end.

(** [FROM cards c JOIN answers a ON c.answers_id = a.id] followed by the
    two outer joins. *)
Definition joined_rows (s : store) : list joined_row :=
  flat_map (fun c =>
    flat_map (fun a => left_join_tags s c a)
      (filter (fun a => key_matches (c_answers_id c) (a_id a))
              (st_answers s)))
    (st_cards s).

Definition group_rows (g : Z) (rows : list joined_row) : list joined_row :=
  filter (fun r => row_card_id r =? g) rows.

(** [GROUP BY c.id]: one output row per card identifier; the bare
    columns are read from a row of the group. [cards] is scanned by
    rowid, which is [c.id], so the groups come out in that order without
    a sort, and [GROUP_CONCAT] takes the names of a group in the order of
    its rows. *)
Definition grouped_rows (s : store)
  : list (card_row * answers_row * option string) :=
  let rows := joined_rows s in
  flat_map (fun g =>
    match group_rows g rows with
    | ((c, a), _) :: _ => [(c, a, group_concat (row_names (group_rows g rows)))]
    | [] => []
    end) (nodup Z.eq_dec (map row_card_id rows)).

(** Python's [bool(retired)] on the stored integer ([None] is falsy). *)
Definition py_bool (v : option Z) : bool :=
  match v with
  | Some z => negb (z =? 0)
  | None => false
  end.

Fixpoint map_option {A B} (f : A -> option B) (l : list A)
  : option (list B) :=
  match l with
  | [] => Some []
  | x :: xs =>
      match f x with
      | Some y =>
          match map_option f xs with
          | Some ys => Some (y :: ys)
          | None => None
          end
      | None => None
      end
  end.

(** [tags.split(",") if tags else []]. *)
Definition tag_list (tg : option string) : list string :=
  match tg with
  | None | Some EmptyString => []
  | Some t => split_comma t
  end.

Section Load.

(** Python's [json.loads]; [None] is a raised [JSONDecodeError]. *)
Variable json_loads : string -> option json.

(** [json.loads(images_json) if images_json else []]. *)
Definition decode_images (v : option string) : option json :=
  match v with
  | None => Some (JArr [])
  | Some EmptyString => Some (JArr [])
  | Some t => json_loads t
  end.

(** The body of [for row in cursor.fetchall()]. *)
Definition row_to_card (r : card_row * answers_row * option string)
  : option card :=
  let '(c, a, tg) := r in
  match decode_images (c_images c) with
  | None => None
  | Some imgs =>
      Some {| id := c_id c; front := c_front c; back := c_back c;
              last_asked := c_last_asked c;
              next_review := c_next_review c;
              retired := py_bool (c_retired c);
              tags := tag_list tg;
              images := imgs;
              answers := {| correct := a_correct a;
                            partial := a_partial a;
                            incorrect := a_incorrect a |};
              streak := c_streak c |}
  end.

Definition load_cards (s : store) : option (list card) :=
  map_option row_to_card (grouped_rows s).

End Load.

(** ** The endpoints of [backend/api/main.py] *)

(** What FastAPI sends back: the status code and the JSON content. *)
Record response := {
  status : Z;
  content : json
}.

(** The answer to [raise HTTPException(status_code=code, detail=detail)]. *)
Definition http_error (code : Z) (detail : string) : response :=
  {| status := code; content := JObj [("detail", JStr detail)] |}.

(** [str(e)] for the exceptions the two writers raise. *)
Definition error_text (e : error) : string :=
  match e with
  | NotFound cid =>
      ("Card with ID " ++ NilZero.string_of_int (Z.to_int cid) ++ " not found")%string
  | IntegrityError => "UNIQUE constraint failed: card_tags.card_id, card_tags.tag_id"
  | TypeError => "'NoneType' object is not subscriptable"
  | OverflowError => "Python int too large to convert to SQLite INTEGER"
  end.

(** What [await request.json()] gives: the message of the
    [JSONDecodeError] it raises, or the decoded body. *)
Inductive request_body (A : Type) :=
| Malformed (msg : string)
| Decoded (v : A).
#[global] Arguments Malformed {A} msg.
#[global] Arguments Decoded {A} v.

(** [POST /cards] ([save_cards]): the body goes to [update_cards]; any
    exception, the one of [request.json()] included, is answered with a
    500 whose detail is [str(e)]; on success the handler returns [None],
    sent as [null]. The elements of the body are taken to carry the keys
    [update_cards] reads. *)
Definition api_save_cards (req : request_body (list card_update)) (s : store)
  : response * store :=
  match req with
  | Malformed msg => (http_error 500 msg, s)
  | Decoded data =>
      match update_cards data s with
      | (Ok _, s') => ({| status := 200; content := JNull |}, s')
      | (Err e, s') => (http_error 500 (error_text e), s')
      end
  end.

(** An element of the body of [POST /add_cards]: a JSON object in which
    each of the keys ["front"], ["back"] and ["tags"] is absent ([None])
    or holds a value of the type [add_cards] reads; other keys are read by
    no one and left out. *)
Record request_card := {
  rc_front : option string;
  rc_back : option string;
  rc_tags : option (list string)
}.




(** ** Concrete data: the fixture of [test_card_processing.py] *)

Definition dquote : string := String (ascii_of_nat 34) EmptyString.

(** A decoder agreeing with [json.loads] on the texts stored below. *)
Definition sample_json_loads (t : string) : option json :=
  if String.eqb t "[]" then Some (JArr [])
  else if String.eqb t ("[" ++ dquote ++ "image1.jpg" ++ dquote ++ "]")%string
  then Some (JArr [JStr "image1.jpg"])
  else None.

Definition fixture : store := {|
  st_answers := [{| a_id := 1; a_correct := 5; a_partial := 2;
                    a_incorrect := 1 |}];
  st_cards := [{| c_id := 1; c_front := "Test Front";
                  c_back := "Test Back"; c_last_asked := "2024-01-01";
                  c_next_review := "2024-01-01"; c_retired := Some 0;
                  c_streak := 3;
                  c_images :=
                    Some ("[" ++ dquote ++ "image1.jpg" ++ dquote ++ "]")%string;
                  c_answers_id := Some 1 |}];
  st_tags := [{| t_id := 1; t_name := "python" |}];
  st_card_tags := [{| ct_card_id := 1; ct_tag_id := 1 |}]
|}.

(** An update of the fixture's card. *)
Definition upd (cid : Z) (fr : string) (ts : list string) : card_update :=
  {| u_id := cid; u_front := fr; u_back := "Test Back"; u_retired := false;
     u_streak := 3; u_answers := {| correct := 5; partial := 2; incorrect := 1 |};
     u_tags := ts |}.

(** The entry [load_cards] builds for the fixture's card. *)
Definition fixture_card : card :=
  {| id := 1; front := "Test Front"; back := "Test Back";
     last_asked := "2024-01-01"; next_review := "2024-01-01";
     retired := false; tags := ["python"];
     images := JArr [JStr "image1.jpg"];
     answers := {| correct := 5; partial := 2; incorrect := 1 |};
     streak := 3 |}.

(** A second card, without tags, next to the fixture's card. *)
Definition untagged_card : card_row :=
  {| c_id := 2; c_front := "Q"; c_back := "R"; c_last_asked := "2024-01-01";
     c_next_review := "2024-01-01"; c_retired := None; c_streak := 0;
     c_images := None; c_answers_id := Some 2 |}.

Definition untagged_answers : answers_row :=
  {| a_id := 2; a_correct := 0; a_partial := 0; a_incorrect := 0 |}.

Definition untagged_store : store :=
  {| st_answers := st_answers fixture ++ [untagged_answers];
     st_cards := st_cards fixture ++ [untagged_card];
     st_tags := st_tags fixture; st_card_tags := st_card_tags fixture |}.

Definition untagged_loaded : list card :=
  match load_cards sample_json_loads untagged_store with
  | Some l => l
  | None => []
  end.

(** The fixture's card, linked to "a" and "b" (as the [update_cards]
    call of the test suite would leave it with tags ["A"; "b"]). *)
Definition tagged_store : store :=
  {| st_answers := st_answers fixture; st_cards := st_cards fixture;
     st_tags := st_tags fixture ++ [{| t_id := 2; t_name := "a" |};
                                    {| t_id := 3; t_name := "b" |}];
     st_card_tags := [{| ct_card_id := 1; ct_tag_id := 2 |};
                      {| ct_card_id := 1; ct_tag_id := 3 |}] |}.

Definition tagged_loaded : list card :=
  match load_cards sample_json_loads tagged_store with
  | Some l => l
  | None => []
  end.

(** A second card whose stats reference reaches no answers row. *)
Definition orphan_card : card_row :=
  {| c_id := 2; c_front := "Q"; c_back := "R"; c_last_asked := "2024-01-01";
     c_next_review := "2024-01-01"; c_retired := Some 0; c_streak := 0;
     c_images := Some "[]"; c_answers_id := Some 9 |}.

Definition orphan_store : store :=
  {| st_answers := st_answers fixture; st_cards := st_cards fixture ++ [orphan_card];
     st_tags := st_tags fixture; st_card_tags := st_card_tags fixture |}.

(** A second card whose image text is not JSON. *)
Definition bad_image_card : card_row :=
  {| c_id := 2; c_front := "Q"; c_back := "R"; c_last_asked := "2024-01-01";
     c_next_review := "2024-01-01"; c_retired := Some 0; c_streak := 0;
     c_images := Some "[oops"; c_answers_id := Some 2 |}.

Definition bad_image_store : store :=
  {| st_answers := st_answers fixture ++ [untagged_answers];
     st_cards := st_cards fixture ++ [bad_image_card];
     st_tags := st_tags fixture; st_card_tags := st_card_tags fixture |}.

(** Three cards: the fixture's card, linked to three tags by rows stored
    out of tag order; an untagged card without images; a card with
    identifier 4, the answers rows referred to out of order. *)
Definition multi_store : store :=
  {| st_answers := st_answers fixture ++
       [untagged_answers;
        {| a_id := 3; a_correct := 1; a_partial := 1; a_incorrect := 0 |}];
     st_cards := st_cards fixture ++
       [{| c_id := 2; c_front := "Q"; c_back := "R"; c_last_asked := "2024-01-01";
           c_next_review := "2024-01-01"; c_retired := None; c_streak := 0;
           c_images := None; c_answers_id := Some 3 |};
        {| c_id := 4; c_front := "S"; c_back := "T"; c_last_asked := "2024-01-02";
           c_next_review := "2024-01-03"; c_retired := Some 1; c_streak := 2;
           c_images := Some "[]"; c_answers_id := Some 2 |}];
     st_tags := st_tags fixture ++ [{| t_id := 2; t_name := "go" |};
                                    {| t_id := 3; t_name := "rust" |}];
     st_card_tags := [{| ct_card_id := 1; ct_tag_id := 3 |};
                      {| ct_card_id := 1; ct_tag_id := 1 |};
                      {| ct_card_id := 4; ct_tag_id := 2 |};
                      {| ct_card_id := 1; ct_tag_id := 2 |}] |}.



Definition req_no_tags : request_card :=
  {| rc_front := Some "Q"; rc_back := Some "R"; rc_tags := None |}.

(** ** Vocabulary of the properties *)

(** Some row of [tags] carries the name. *)
Definition has_tag (name : string) (l : list tag_row) : bool :=
  existsb (fun t => String.eqb (t_name t) name) l.

(** The row [SELECT ... FROM tags WHERE name = ?] fetches first. *)
Definition first_tag (name : string) (l : list tag_row) : option tag_row :=
  find (fun t => String.eqb (t_name t) name) l.

(** The [tags] table grows only by appending, under a fresh rowid, a
    name it does not hold yet. *)
Inductive tags_evolve : list tag_row -> list tag_row -> Prop :=
| te_refl l : tags_evolve l l
| te_add l l' name :
    has_tag name l = false ->
    tags_evolve (l ++ [{| t_id := next_rowid (map t_id l); t_name := name |}]) l' ->
    tags_evolve l l'.

(** The count of rows carrying a name. *)
Definition count_name (name : string) (l : list tag_row) : nat :=
  length (filter (fun t => String.eqb (t_name t) name) l).

(** The pair is already in [card_tags]. *)
Definition has_link (cid tid : Z) (l : list card_tag_row) : bool :=
  existsb (fun ct => (ct_card_id ct =? cid) && (ct_tag_id ct =? tid)) l.

(** A card row after [UPDATE cards ... WHERE id = ?] for the entry [u]. *)
Definition card_update_row (u : card_update) (c : card_row) : card_row :=
  if c_id c =? u_id u then set_card_fields u c else c.

(** An answers row after [UPDATE answers ... WHERE id = key]. *)
Definition answers_update_row (key : option Z) (u : card_update)
  (a : answers_row) : answers_row :=
  if key_matches key (a_id a) then set_answers_counts u a else a.

(** The batch names the card identifier. *)
Definition in_batch (b : list card_update) (cid : Z) : bool :=
  existsb (fun u => u_id u =? cid) b.

(** A card row after a batch [b]: identifier, dates, images and stats
    reference kept; the whole row kept when [b] does not name it. *)
Definition card_frame (b : list card_update) (c c' : card_row) : Prop :=
  c_id c' = c_id c /\ c_last_asked c' = c_last_asked c /\
  c_next_review c' = c_next_review c /\ c_images c' = c_images c /\
  c_answers_id c' = c_answers_id c /\
  (in_batch b (c_id c) = false -> c' = c).

(** An answers row after a batch [b]: kept when no card of [b] refers
    to it. *)
Definition answers_frame (cs : list card_row) (b : list card_update)
  (a a' : answers_row) : Prop :=
  a_id a' = a_id a /\
  ((forall u, In u b -> answers_ref cs (u_id u) <> Some (a_id a)) -> a' = a).

(** The names of the tags linked to a card, one per link, in the order
    of the [card_tags] table. *)
Definition linked_names (s : store) (cid : Z) : list string :=
  flat_map (fun ct => map t_name (filter (fun t => t_id t =? ct_tag_id ct) (st_tags s)))
    (filter (fun ct => ct_card_id ct =? cid) (st_card_tags s)).

(** The same names in the order [load_cards] reads the links of the
    card: by tag identifier. *)
Definition index_names (s : store) (cid : Z) : list string :=
  flat_map (fun ct => map t_name (filter (fun t => t_id t =? ct_tag_id ct) (st_tags s)))
    (sort_by_tag (filter (fun ct => ct_card_id ct =? cid) (st_card_tags s))).

(** Every integer of the entry [u] binds as a 64-bit SQLite integer. *)
Definition entry_fits (u : card_update) : bool :=
  fits_int64 (u_id u) && fits_int64 (u_streak u) &&
  fits_int64 (correct (u_answers u)) && fits_int64 (partial (u_answers u)) &&
  fits_int64 (incorrect (u_answers u)).

(** The store after the two [UPDATE]s and the [DELETE] of the entry [u],
    before its tags are linked. *)
Definition entry_written (u : card_update) (s : store) : store :=
  {| st_answers :=
       map (answers_update_row
              (answers_ref (map (card_update_row u) (st_cards s)) (u_id u)) u)
           (st_answers s);
     st_cards := map (card_update_row u) (st_cards s);
     st_tags := st_tags s;
     st_card_tags :=
       filter (fun ct => negb (ct_card_id ct =? u_id u)) (st_card_tags s) |}.

(** The [card_tags] row linking a card to a tag. *)
Definition link_of (cid : Z) (tg : tag_row) : card_tag_row :=
  {| ct_card_id := cid; ct_tag_id := t_id tg |}.

(** The text holds no comma, the separator of [GROUP_CONCAT]. *)
Fixpoint comma_free (w : string) : bool :=
  match w with
  | EmptyString => true
  | String ch w' => negb (Ascii.eqb ch ",") && comma_free w'
  end.

(** Distinct cards refer to distinct answers rows: the one-to-one
    relation between cards and their stats that [add_cards] builds. *)
Definition answers_one_to_one (cs : list card_row) : Prop :=
  forall c1 c2, In c1 cs -> In c2 cs -> c_answers_id c1 <> None ->
    c_answers_id c1 = c_answers_id c2 -> c_id c1 = c_id c2.

(** The fields [UPDATE cards] writes, as supplied by the entry [u]. *)
Definition stored_fields (u : card_update) (c : card_row) : Prop :=
  c_front c = u_front u /\ c_back c = u_back u /\
  c_retired c = Some (Z.b2z (u_retired u)) /\ c_streak c = u_streak u.

(** The counts [UPDATE answers] writes, as supplied by the entry [u]. *)
Definition stored_counts (u : card_update) (a : answers_row) : Prop :=
  a_correct a = correct (u_answers u) /\ a_partial a = partial (u_answers u) /\
  a_incorrect a = incorrect (u_answers u).

(** The two columns of a card row the loop of [update_cards] never writes
    and the one-to-one relation depends on. *)
Definition card_key (c : card_row) : Z * option Z := (c_id c, c_answers_id c).

(** The key of the [card_tags] primary key. *)
Definition link_key (ct : card_tag_row) : Z * Z := (ct_card_id ct, ct_tag_id ct).

(** The constraints of the schema ([PRIMARY KEY]s, [tags.name UNIQUE],
    the [FOREIGN KEY]s of [card_tags]) and the references the writers
    build: every card refers to an existing answers row, no two cards to
    the same one. *)
Record well_formed (s : store) : Prop := {
  wf_card_ids : NoDup (map c_id (st_cards s));
  wf_answer_ids : NoDup (map a_id (st_answers s));
  wf_tag_ids : NoDup (map t_id (st_tags s));
  wf_tag_names : NoDup (map t_name (st_tags s));
  wf_links : NoDup (map link_key (st_card_tags s));
  wf_link_cards : forall ct, In ct (st_card_tags s) ->
                    In (ct_card_id ct) (map c_id (st_cards s));
  wf_link_tags : forall ct, In ct (st_card_tags s) ->
                   In (ct_tag_id ct) (map t_id (st_tags s));
  wf_card_answers : forall c, In c (st_cards s) ->
                      exists k, c_answers_id c = Some k /\ In k (map a_id (st_answers s));
  wf_one_to_one : answers_one_to_one (st_cards s)
}.

(** * Properties *)

(** ** The monad *)

Lemma bind_ok {A B} (m : M A) (k : A -> M B) s b s'' :
  bind m k s = Ok (b, s'') ->
  exists a s', m s = Ok (a, s') /\ k a s' = Ok (b, s'').
Proof.
  unfold bind. destruct (m s) as [[a s']|e]; [|discriminate].
  intros H. eauto.
Qed.

Lemma bind_err {A B} (m : M A) (k : A -> M B) s e :
  bind m k s = Err e ->
  m s = Err e \/ exists a s', m s = Ok (a, s') /\ k a s' = Err e.
Proof.
  unfold bind. destruct (m s) as [[a s']|e']; intros H; [right; eauto|].
  left. congruence.
Qed.

Ltac inv_ok H :=
  let a := fresh "a" in let s := fresh "s" in
  let H1 := fresh "H" in let H2 := fresh "H" in
  apply bind_ok in H; destruct H as (a & s & H1 & H2).

(** ** Row identifiers chosen by SQLite are fresh *)

Lemma fold_max_ge (l : list Z) (i : Z) :
  i <= fold_left Z.max l i /\ Forall (fun x => x <= fold_left Z.max l i) l.
Proof.
  revert i. induction l as [|x l IH]; intros i; simpl.
  - split; [lia|constructor].
  - destruct (IH (Z.max i x)) as [H1 H2]. split; [lia|].
    constructor; [lia|exact H2].
Qed.

Lemma next_rowid_fresh (ids : list Z) (x : Z) :
  In x ids -> x < next_rowid ids.
Proof.
  destruct ids as [|i is]; simpl; [tauto|].
  destruct (fold_max_ge is i) as [H1 H2]. intros [<-|H]; [lia|].
  rewrite Forall_forall in H2. specialize (H2 x H). lia.
Qed.

Lemma next_rowid_not_in (ids : list Z) : ~ In (next_rowid ids) ids.
Proof. intros H. apply next_rowid_fresh in H. lia. Qed.

(** ** How the tags table evolves: rows are only appended, each by an
    [INSERT OR IGNORE] of a name that is absent. *)

Lemma tags_evolve_trans l1 l2 l3 :
  tags_evolve l1 l2 -> tags_evolve l2 l3 -> tags_evolve l1 l3.
Proof.
  induction 1; intros; [assumption|]. eapply te_add; eauto.
Qed.

Lemma tags_evolve_prefix l l' :
  tags_evolve l l' -> exists extra, l' = l ++ extra.
Proof.
  induction 1 as [l|l l' name _ _ [extra ->]]; [exists []; symmetry; apply app_nil_r|].
  rewrite <- app_assoc. eexists. reflexivity.
Qed.

Lemma find_app {A} (f : A -> bool) l1 l2 :
  find f (l1 ++ l2) = match find f l1 with Some x => Some x | None => find f l2 end.
Proof.
  induction l1 as [|x l1 IH]; simpl; [reflexivity|]. destruct (f x); auto.
Qed.

Lemma first_tag_app name l extra t :
  first_tag name l = Some t -> first_tag name (l ++ extra) = Some t.
Proof. unfold first_tag. rewrite find_app. intros ->. reflexivity. Qed.

Lemma tags_evolve_first_tag l l' name t :
  tags_evolve l l' -> first_tag name l = Some t -> first_tag name l' = Some t.
Proof.
  intros H. destruct (tags_evolve_prefix _ _ H) as [extra ->].
  apply first_tag_app.
Qed.

Lemma has_tag_count name l : has_tag name l = false -> count_name name l = 0%nat.
Proof.
  unfold has_tag, count_name. induction l as [|t l IH]; simpl; [reflexivity|].
  destruct (String.eqb (t_name t) name); [discriminate|]. exact IH.
Qed.

Lemma count_name_app name l1 l2 :
  count_name name (l1 ++ l2) = (count_name name l1 + count_name name l2)%nat.
Proof. unfold count_name. rewrite filter_app, length_app. reflexivity. Qed.

Lemma tags_evolve_count name l l' :
  tags_evolve l l' -> (count_name name l <= 1)%nat -> (count_name name l' <= 1)%nat.
Proof.
  induction 1 as [l|l l' nm Hnew _ IH]; intros Hc; [exact Hc|]. apply IH.
  rewrite count_name_app. unfold count_name at 2; simpl.
  destruct (String.eqb_spec nm name) as [->|Hne]; simpl.
  - apply has_tag_count in Hnew. lia.
  - lia.
Qed.

Lemma tags_evolve_nodup_ids l l' :
  tags_evolve l l' -> NoDup (map t_id l) -> NoDup (map t_id l').
Proof.
  induction 1 as [l|l l' nm _ _ IH]; intros Hn; [exact Hn|]. apply IH.
  rewrite map_app. simpl. apply NoDup_app; [exact Hn|repeat constructor; simpl; tauto|].
  intros x Hx [<-|[]]. exact (next_rowid_not_in _ Hx).
Qed.

(** ** Tag resolution *)

Lemma find_none_existsb {A} (f : A -> bool) l :
  find f l = None <-> existsb f l = false.
Proof.
  induction l as [|x l IH]; simpl; [tauto|].
  destruct (f x); simpl; [split; discriminate|exact IH].
Qed.

Lemma resolve_tag_spec t s :
  exists tg s', resolve_tag t s = Ok (t_id tg, s') /\
    first_tag (lower t) (st_tags s') = Some tg /\
    tags_evolve (st_tags s) (st_tags s') /\
    st_cards s' = st_cards s /\ st_answers s' = st_answers s /\
    st_card_tags s' = st_card_tags s /\
    (forall tg0, first_tag (lower t) (st_tags s) = Some tg0 -> tg = tg0 /\ s' = s).
Proof.
  unfold resolve_tag, bind, insert_or_ignore_tag, select_tag_id.
  destruct (existsb (fun t0 => String.eqb (t_name t0) (lower t)) (st_tags s))
    eqn:Hex.
  - destruct (find (fun t0 => String.eqb (t_name t0) (lower t)) (st_tags s))
      as [tg|] eqn:Hf.
    + exists tg, s.
      split; [reflexivity|]. split; [exact Hf|]. split; [constructor|].
      split; [reflexivity|]. split; [reflexivity|]. split; [reflexivity|].
      unfold first_tag. intros tg1 Hf1. split; [congruence|reflexivity].
    + apply find_none_existsb in Hf. congruence.
  - set (tg := {| t_id := next_rowid (map t_id (st_tags s)); t_name := lower t |}).
    assert (Hf : find (fun t0 => String.eqb (t_name t0) (lower t)) (st_tags s ++ [tg])
                 = Some tg).
    { rewrite find_app. apply find_none_existsb in Hex. rewrite Hex. simpl.
      rewrite String.eqb_refl. reflexivity. }
    simpl. rewrite Hf. exists tg. eexists. split; [reflexivity|].
    simpl. split; [exact Hf|]. split; [eapply te_add; [exact Hex|constructor]|].
    split; [reflexivity|]. split; [reflexivity|]. split; [reflexivity|].
    intros tg1 Hf1. unfold first_tag in Hf1.
      apply find_none_existsb in Hex. congruence.
Qed.

(** ** Linking the tags of one card *)

Lemma link_tags_cons cid t ts :
  link_tags cid (t :: ts) =
  (tag_id <- resolve_tag t;; insert_card_tag cid tag_id;;; link_tags cid ts).
Proof. reflexivity. Qed.

Lemma insert_card_tag_ok cid tid s x s' :
  insert_card_tag cid tid s = Ok (x, s') ->
  has_link cid tid (st_card_tags s) = false /\
  s' = {| st_answers := st_answers s; st_cards := st_cards s;
          st_tags := st_tags s;
          st_card_tags := st_card_tags s ++ [{| ct_card_id := cid; ct_tag_id := tid |}] |}.
Proof.
  unfold insert_card_tag, has_link.
  destruct (existsb _ (st_card_tags s)); [discriminate|].
  intros H. inversion H. auto.
Qed.

Lemma link_tags_ok cid ts s x s' :
  link_tags cid ts s = Ok (x, s') ->
  st_cards s' = st_cards s /\ st_answers s' = st_answers s /\
  tags_evolve (st_tags s) (st_tags s') /\
  exists extra, st_card_tags s' = st_card_tags s ++ extra /\
                Forall (fun ct => ct_card_id ct = cid) extra.
Proof.
  revert s. induction ts as [|t ts IH]; intros s H.
  - inversion H; subst. repeat split; try constructor.
    exists []. split; [symmetry; apply app_nil_r|constructor].
  - rewrite link_tags_cons in H. inv_ok H. inv_ok H1.
    destruct (resolve_tag_spec t s) as (tg & s1' & Hr & _ & Hte & Hc & Ha & Hct & _).
    rewrite Hr in H0. inversion H0; subst; clear H0.
    apply insert_card_tag_ok in H. destruct H as [_ ->].
    destruct (IH _ H2) as (Hc2 & Ha2 & Hte2 & extra & Hx & Hf). simpl in *.
    repeat split; try congruence.
    + eapply tags_evolve_trans; eauto.
    + exists ({| ct_card_id := cid; ct_tag_id := t_id tg |} :: extra).
      rewrite Hx, Hct, <- app_assoc. split; [reflexivity|constructor; auto].
Qed.

Lemma link_tags_err cid ts s e :
  link_tags cid ts s = Err e -> e = IntegrityError.
Proof.
  revert s. induction ts as [|t ts IH]; intros s H; [discriminate|].
  rewrite link_tags_cons in H. apply bind_err in H.
  destruct (resolve_tag_spec t s) as (tg & s1 & Hr & _).
  destruct H as [H|(a & s2 & H1 & H)]; [congruence|].
  rewrite Hr in H1. inversion H1; subst; clear H1.
  apply bind_err in H. destruct H as [H|(x & s3 & _ & H)]; [|exact (IH _ H)].
  unfold insert_card_tag in H. destruct (existsb _ _); congruence.
Qed.

Lemma has_link_app cid tid l1 l2 :
  has_link cid tid (l1 ++ l2) = has_link cid tid l1 || has_link cid tid l2.
Proof. unfold has_link. apply existsb_app. Qed.

(** A tag whose name already resolves in the store must not be linked to
    the card yet when [link_tags] succeeds. *)
Lemma link_tags_fresh cid ts s x s' :
  link_tags cid ts s = Ok (x, s') ->
  forall t tg, In t ts -> first_tag (lower t) (st_tags s) = Some tg ->
  has_link cid (t_id tg) (st_card_tags s) = false.
Proof.
  revert s. induction ts as [|t0 ts IH]; intros s H t tg Hin Hf; [destruct Hin|].
  rewrite link_tags_cons in H. inv_ok H. inv_ok H1.
  destruct (resolve_tag_spec t0 s) as (tg0 & s1' & Hr & Hf0 & Hte & Hc & Ha & Hct & Hold).
  rewrite Hr in H0. inversion H0; subst; clear H0.
  apply insert_card_tag_ok in H. destruct H as [Hnl ->].
  destruct Hin as [<-|Hin].
  - destruct (Hold _ Hf) as [-> ->]. exact Hnl.
  - specialize (IH _ H2 t tg Hin). simpl in IH.
    rewrite has_link_app, Hct in IH. apply orb_false_iff in IH. apply IH.
    eapply tags_evolve_first_tag; eauto.
Qed.

(** [link_tags] succeeds only on names that stay distinct once
    lower-cased: a repeated name would insert the same pair twice. *)
Lemma link_tags_nodup cid ts s x s' :
  link_tags cid ts s = Ok (x, s') -> NoDup (map lower ts).
Proof.
  revert s. induction ts as [|t ts IH]; intros s H; simpl; [constructor|].
  pose proof H as H'.
  rewrite link_tags_cons in H. inv_ok H. inv_ok H1.
  destruct (resolve_tag_spec t s) as (tg & s1' & Hr & Hf & Hte & Hc & Ha & Hct & _).
  rewrite Hr in H0. inversion H0; subst; clear H0.
  apply insert_card_tag_ok in H. destruct H as [Hnl ->].
  constructor; [|exact (IH _ H2)].
  intros Hin. apply in_map_iff in Hin. destruct Hin as (t' & Heq & Hin).
  pose proof (link_tags_fresh _ _ _ _ _ H2 t' tg Hin) as Hfr. simpl in Hfr.
  rewrite Heq in Hfr. specialize (Hfr Hf).
  rewrite has_link_app in Hfr. apply orb_false_iff in Hfr.
  destruct Hfr as [_ Hfr]. simpl in Hfr. rewrite !Z.eqb_refl in Hfr. discriminate.
Qed.

(** ** One iteration of [update_cards] *)

Lemma update_one_eq u s :
  update_one u s =
  if negb (fits_int64 (u_id u)) then Err OverflowError
  else if negb (existsb (fun c => c_id c =? u_id u) (st_cards s))
  then Err (NotFound (u_id u))
  else if negb (entry_fits u) then Err OverflowError
  else link_tags (u_id u) (u_tags u) (entry_written u s).
Proof.
  unfold update_one, bind, select_card_id, update_card_row, update_answers_row,
    delete_card_tags, entry_fits, entry_written, card_update_row,
    answers_update_row, raise.
  destruct (fits_int64 (u_id u)); simpl; [|reflexivity].
  destruct (existsb (fun c => c_id c =? u_id u) (st_cards s)); simpl; [|reflexivity].
  destruct (fits_int64 (u_streak u)); simpl; [|reflexivity].
  destruct (fits_int64 (correct (u_answers u))), (fits_int64 (partial (u_answers u))),
    (fits_int64 (incorrect (u_answers u))); reflexivity.
Qed.

Lemma update_one_ok u s x s' :
  update_one u s = Ok (x, s') ->
  existsb (fun c => c_id c =? u_id u) (st_cards s) = true /\
  st_cards s' = map (card_update_row u) (st_cards s) /\
  st_answers s' =
    map (answers_update_row (answers_ref (st_cards s) (u_id u)) u) (st_answers s) /\
  tags_evolve (st_tags s) (st_tags s') /\
  (exists extra,
     st_card_tags s' =
       filter (fun ct => negb (ct_card_id ct =? u_id u)) (st_card_tags s) ++ extra /\
     Forall (fun ct => ct_card_id ct = u_id u) extra) /\
  NoDup (map lower (u_tags u)).
Proof.
  rewrite update_one_eq. intros H0.
  destruct (fits_int64 (u_id u)); [|discriminate].
  destruct (existsb (fun c => c_id c =? u_id u) (st_cards s)) eqn:Hex; [|discriminate].
  destruct (entry_fits u); [|discriminate]. simpl in H0.
  pose proof (link_tags_nodup _ _ _ _ _ H0) as Hnd.
  apply link_tags_ok in H0. unfold entry_written in H0. simpl in H0.
  destruct H0 as (Hc & Ha & Hte & Hx).
  assert (Href : answers_ref (map (card_update_row u) (st_cards s)) (u_id u)
                 = answers_ref (st_cards s) (u_id u)).
  { unfold answers_ref. clear. induction (st_cards s) as [|c cs IH]; [reflexivity|].
    simpl. unfold card_update_row. destruct (c_id c =? u_id u) eqn:E; simpl;
    rewrite E; [reflexivity|exact IH]. }
  split; [reflexivity|]. split; [exact Hc|]. split.
  { rewrite Ha. rewrite Href. reflexivity. }
  split; [exact Hte|]. split; [exact Hx|exact Hnd].
Qed.

(** ** The loop of [update_cards]: what a successful batch leaves in place *)

Lemma Forall2_refl {A} (R : A -> A -> Prop) l :
  (forall x, R x x) -> Forall2 R l l.
Proof. intros H. induction l; constructor; auto. Qed.

Lemma Forall2_map_r {A B} (R : A -> B -> Prop) (f : A -> B) l :
  (forall x, R x (f x)) -> Forall2 R l (map f l).
Proof. intros H. induction l; constructor; auto. Qed.

Lemma Forall2_compose {A B C} (R : A -> B -> Prop) (S : B -> C -> Prop)
  (T : A -> C -> Prop) l1 l2 l3 :
  (forall x y z, R x y -> S y z -> T x z) ->
  Forall2 R l1 l2 -> Forall2 S l2 l3 -> Forall2 T l1 l3.
Proof.
  intros HT H1. revert l3. induction H1; intros l3 H2; inversion H2; subst;
  constructor; eauto.
Qed.

Lemma card_frame_ids b cs cs' :
  Forall2 (card_frame b) cs cs' -> map c_id cs' = map c_id cs.
Proof.
  induction 1 as [|c c' cs cs' [Hid _] _ IH]; simpl; [reflexivity|].
  rewrite Hid, IH. reflexivity.
Qed.

Lemma card_frame_answers_ref b cs cs' i :
  Forall2 (card_frame b) cs cs' -> answers_ref cs' i = answers_ref cs i.
Proof.
  unfold answers_ref.
  induction 1 as [|c c' cs cs' (Hid & _ & _ & _ & Ha & _) _ IH]; simpl;
  [reflexivity|].
  rewrite Hid. destruct (c_id c =? i); [exact Ha|exact IH].
Qed.

Lemma card_frame_step u c : card_frame [u] c (card_update_row u c).
Proof.
  unfold card_frame, card_update_row, in_batch. simpl.
  destruct (c_id c =? u_id u) eqn:E; simpl; repeat split; try reflexivity.
  rewrite Z.eqb_sym, E. discriminate.
Qed.

Lemma card_frame_cons u us c c1 c2 :
  card_frame [u] c c1 -> card_frame us c1 c2 -> card_frame (u :: us) c c2.
Proof.
  unfold card_frame, in_batch. simpl.
  intros (H1 & H2 & H3 & H4 & H5 & H6) (G1 & G2 & G3 & G4 & G5 & G6).
  repeat split; try congruence.
  intros Hn. apply orb_false_iff in Hn. destruct Hn as [Hu Hus].
  rewrite orb_false_r in H6. specialize (H6 Hu). subst c1.
  apply G6. exact Hus.
Qed.

Lemma filter_and {A} (f g : A -> bool) l :
  filter (fun x => f x && g x) l = filter f (filter g l).
Proof.
  induction l as [|x l IH]; simpl; [reflexivity|].
  destruct (f x) eqn:Ef, (g x) eqn:Eg; simpl; rewrite ?Ef, ?IH; reflexivity.
Qed.

Lemma batch_filter_step u us (L L1 L' extra : list card_tag_row) :
  filter (fun ct => negb (in_batch us (ct_card_id ct))) L' =
  filter (fun ct => negb (in_batch us (ct_card_id ct))) L1 ->
  L1 = filter (fun ct => negb (ct_card_id ct =? u_id u)) L ++ extra ->
  Forall (fun ct => ct_card_id ct = u_id u) extra ->
  filter (fun ct => negb (in_batch (u :: us) (ct_card_id ct))) L' =
  filter (fun ct => negb (in_batch (u :: us) (ct_card_id ct))) L.
Proof.
  intros G -> Hex.
  assert (Hsplit : forall l,
    filter (fun ct => negb (in_batch (u :: us) (ct_card_id ct))) l =
    filter (fun ct => negb (ct_card_id ct =? u_id u))
      (filter (fun ct => negb (in_batch us (ct_card_id ct))) l)).
  { intros l. rewrite <- filter_and. apply filter_ext. intros ct.
    unfold in_batch. simpl. rewrite Z.eqb_sym, negb_orb. reflexivity. }
  rewrite Hsplit, G, <- Hsplit, filter_app.
  replace (filter (fun ct => negb (in_batch (u :: us) (ct_card_id ct))) extra)
    with (@nil card_tag_row).
  2:{ clear G Hsplit. induction Hex as [|ct ex Hct _ IH]; [reflexivity|]. simpl.
      unfold in_batch at 1. simpl. rewrite Hct, Z.eqb_refl. exact IH. }
  rewrite app_nil_r, <- filter_and. apply filter_ext. intros ct.
  unfold in_batch. simpl. rewrite Z.eqb_sym.
  destruct (ct_card_id ct =? u_id u); simpl; rewrite ?andb_true_r; reflexivity.
Qed.

Lemma update_all_ok b s x s' :
  update_all b s = Ok (x, s') ->
  Forall2 (card_frame b) (st_cards s) (st_cards s') /\
  Forall2 (answers_frame (st_cards s) b) (st_answers s) (st_answers s') /\
  tags_evolve (st_tags s) (st_tags s') /\
  filter (fun ct => negb (in_batch b (ct_card_id ct))) (st_card_tags s') =
  filter (fun ct => negb (in_batch b (ct_card_id ct))) (st_card_tags s) /\
  (forall u, In u b -> NoDup (map lower (u_tags u))).
Proof.
  revert s. induction b as [|u us IH]; intros s H.
  - injection H as _ <-. split; [apply Forall2_refl; intros c; repeat split; auto|].
    split; [apply Forall2_refl; intros a; split; auto|].
    split; [constructor|]. split; [reflexivity|intros _ []].
  - cbn [update_all] in H. inv_ok H.
    destruct (update_one_ok _ _ _ _ H0)
      as (_ & Hc & Ha & Hte & (extra & Hct & Hex) & Hnd).
    destruct (IH _ H1) as (Gc & Ga & Gte & Gct & Gnd).
    split; [|split; [|split; [|split]]].
    + rewrite Hc in Gc. eapply Forall2_compose; [|apply Forall2_map_r; apply card_frame_step|exact Gc].
      apply card_frame_cons.
    + assert (Href : forall i, answers_ref (st_cards s0) i = answers_ref (st_cards s) i).
      { intros i. rewrite Hc. apply (card_frame_answers_ref [u]).
        apply Forall2_map_r. apply card_frame_step. }
      rewrite Ha in Ga.
      eapply (Forall2_compose
        (fun a a1 => a1 = answers_update_row (answers_ref (st_cards s) (u_id u)) u a));
        [|apply Forall2_map_r; reflexivity|exact Ga].
      intros a0 a1 a2 E1 [F1 F2]. subst a1. unfold answers_frame.
      split; [rewrite F1; unfold answers_update_row, set_answers_counts;
              destruct (key_matches _ _); reflexivity|].
      intros Hno. unfold answers_update_row.
      destruct (key_matches (answers_ref (st_cards s) (u_id u)) (a_id a0)) eqn:Ek.
      * exfalso. unfold key_matches in Ek.
        destruct (answers_ref (st_cards s) (u_id u)) as [k|] eqn:Er; [|discriminate].
        apply Z.eqb_eq in Ek. apply (Hno u); [left; reflexivity|congruence].
      * unfold answers_update_row in *. rewrite Ek in *.
        apply F2. intros u' Hu'. rewrite Href. apply Hno. right. exact Hu'.
    + eapply tags_evolve_trans; eauto.
    + eapply batch_filter_step; eauto.
    + intros u' [<-|Hu']; auto.
Qed.

Lemma existsb_card_id cs cs' i :
  map c_id cs = map c_id cs' ->
  existsb (fun c => c_id c =? i) cs = existsb (fun c => c_id c =? i) cs'.
Proof.
  revert cs'. induction cs as [|c cs IH]; intros [|c' cs'] H; try discriminate;
  [reflexivity|]. simpl in H. injection H as E1 E2. simpl. rewrite E1, (IH _ E2).
  reflexivity.
Qed.

Lemma update_one_err u s e :
  update_one u s = Err e ->
  e = IntegrityError \/ (e = OverflowError /\ entry_fits u = false) \/
  (e = NotFound (u_id u) /\ existsb (fun c => c_id c =? u_id u) (st_cards s) = false).
Proof.
  rewrite update_one_eq.
  destruct (fits_int64 (u_id u)) eqn:Fi; simpl;
    [|intros H; injection H as <-; right; left; split; [reflexivity|]];
    [|unfold entry_fits; rewrite Fi; reflexivity].
  destruct (existsb (fun c => c_id c =? u_id u) (st_cards s)); simpl;
    [|intros H; injection H as <-; right; right; split; reflexivity].
  destruct (entry_fits u); simpl;
    [|intros H; injection H as <-; right; left; split; reflexivity].
  intros H. left. eapply link_tags_err. exact H.
Qed.

Lemma update_all_err b s e :
  update_all b s = Err e ->
  e = IntegrityError \/
  (e = OverflowError /\ exists u, In u b /\ entry_fits u = false) \/
  exists u, In u b /\ e = NotFound (u_id u) /\
            existsb (fun c => c_id c =? u_id u) (st_cards s) = false.
Proof.
  revert s. induction b as [|u us IH]; intros s H; [discriminate|].
  cbn [update_all] in H. apply bind_err in H.
  destruct H as [H|(a & s1 & H1 & H)].
  - destruct (update_one_err _ _ _ H) as [->|[[-> Hf]|[-> Hn]]];
      [left; reflexivity|right; left; split; [reflexivity|]|].
    { exists u. split; [left; reflexivity|exact Hf]. }
    right. right. exists u. split; [left; reflexivity|]. auto.
  - destruct (IH _ H) as [->|[[-> (u' & Hu' & Hf)]|(u' & Hin & -> & Hn)]];
      [left; reflexivity|right; left; split; [reflexivity|]|].
    { exists u'. split; [right; exact Hu'|exact Hf]. }
    right. right. exists u'. split; [right; exact Hin|]. split; [reflexivity|].
    destruct (update_all_ok [u] s tt s1) as (Hc & _).
    { cbn [update_all]. unfold bind. rewrite H1. destruct a. reflexivity. }
    rewrite <- Hn. apply existsb_card_id. symmetry. eapply card_frame_ids. exact Hc.
Qed.

Lemma update_all_app b1 b2 s :
  update_all (b1 ++ b2) s = bind (update_all b1) (fun _ => update_all b2) s.
Proof.
  revert s. induction b1 as [|u b1 IH]; intros s; [reflexivity|].
  cbn [update_all app]. unfold bind. destruct (update_one u s) as [[a s1]|e];
  [|reflexivity]. specialize (IH s1). unfold bind in IH. exact IH.
Qed.

(** ** The loop of [add_cards] *)

Lemma add_one_ok nc s x s' :
  add_one nc s = Ok (x, s') ->
  tags_evolve (st_tags s) (st_tags s') /\ NoDup (map lower (n_tags nc)).
Proof.
  unfold add_one. intros H. inv_ok H. unfold insert_answers_zero in H0.
  injection H0 as <- <-. inv_ok H1. unfold insert_card in H. injection H as <- <-.
  split; [|eapply link_tags_nodup; exact H0].
  apply link_tags_ok in H0. destruct H0 as (_ & _ & Hte & _). exact Hte.
Qed.

Lemma add_one_err nc s e : add_one nc s = Err e -> e = IntegrityError.
Proof.
  unfold add_one, bind, insert_answers_zero, insert_card. apply link_tags_err.
Qed.

Lemma add_all_ok b s x s' :
  add_all b s = Ok (x, s') ->
  tags_evolve (st_tags s) (st_tags s') /\
  (forall nc, In nc b -> NoDup (map lower (n_tags nc))).
Proof.
  revert s. induction b as [|nc ncs IH]; intros s H.
  - injection H as _ <-. split; [constructor|intros _ []].
  - cbn [add_all] in H. inv_ok H. destruct (add_one_ok _ _ _ _ H0) as [Hte Hnd].
    destruct (IH _ H1) as [Gte Gnd]. split; [eapply tags_evolve_trans; eauto|].
    intros nc' [<-|Hin]; auto.
Qed.

Lemma add_all_err b s e : add_all b s = Err e -> e = IntegrityError.
Proof.
  revert s. induction b as [|nc ncs IH]; intros s H; [discriminate|].
  cbn [add_all] in H. apply bind_err in H.
  destruct H as [H|(a & s1 & _ & H)]; [exact (add_one_err _ _ _ H)|exact (IH _ H)].
Qed.

Lemma update_cards_tags b s :
  tags_evolve (st_tags s) (st_tags (snd (update_cards b s))).
Proof.
  unfold update_cards. destruct (update_all b s) as [[x s']|e] eqn:H; simpl;
  [apply (update_all_ok _ _ _ _ H)|constructor].
Qed.

Lemma add_cards_tags b s :
  tags_evolve (st_tags s) (st_tags (snd (add_cards b s))).
Proof.
  unfold add_cards. destruct (add_all b s) as [[x s']|e] eqn:H; simpl;
  [apply (add_all_ok _ _ _ _ H)|constructor].
Qed.

(** ** The projection of [load_cards] *)

Lemma insert_by_tag_perm ct l : Permutation (insert_by_tag ct l) (ct :: l).
Proof.
  induction l as [|ct' l IH]; simpl; [reflexivity|].
  destruct (ct_tag_id ct <=? ct_tag_id ct'); [reflexivity|].
  rewrite IH. apply perm_swap.
Qed.

Lemma sort_by_tag_perm l : Permutation (sort_by_tag l) l.
Proof.
  induction l as [|ct l IH]; simpl; [reflexivity|].
  rewrite insert_by_tag_perm, IH. reflexivity.
Qed.

(** The names [load_cards] reads for a card are its linked names, in
    another order. *)
Lemma index_names_perm s cid : Permutation (index_names s cid) (linked_names s cid).
Proof.
  unfold index_names, linked_names. apply Permutation_flat_map, sort_by_tag_perm.
Qed.

Lemma left_join_tags_card s c a :
  Forall (fun r => fst (fst r) = c) (left_join_tags s c a).
Proof.
  unfold left_join_tags.
  destruct (sort_by_tag _) as [|ct0 cts]; [repeat constructor|].
  apply Forall_forall. intros r Hr. apply in_flat_map in Hr.
  destruct Hr as (ct & _ & Hr).
  destruct (filter _ (st_tags s)) as [|t0 ts]; [destruct Hr as [<-|[]]; reflexivity|].
  apply in_map_iff in Hr. destruct Hr as (t & <- & _). reflexivity.
Qed.

Lemma left_join_tags_head s c a :
  exists tg rest, left_join_tags s c a = (c, a, tg) :: rest.
Proof.
  unfold left_join_tags.
  destruct (sort_by_tag _) as [|ct0 cts]; [eauto|]. simpl.
  destruct (filter _ (st_tags s)) as [|t0 ts]; simpl; eauto.
Qed.

Lemma row_names_app l1 l2 : row_names (l1 ++ l2) = row_names l1 ++ row_names l2.
Proof. unfold row_names. apply flat_map_app. Qed.

Lemma row_names_flat_map {A} (f : A -> list joined_row) l :
  row_names (flat_map f l) = flat_map (fun x => row_names (f x)) l.
Proof.
  induction l as [|x l IH]; simpl; [reflexivity|]. rewrite row_names_app, IH.
  reflexivity.
Qed.

Lemma left_join_tags_names s c a :
  row_names (left_join_tags s c a) = index_names s (c_id c).
Proof.
  unfold left_join_tags, index_names.
  destruct (sort_by_tag _) as [|ct0 cts]; [reflexivity|].
  rewrite row_names_flat_map. apply flat_map_ext. intros ct.
  destruct (filter _ (st_tags s)) as [|t0 ts]; [reflexivity|].
  unfold row_names. simpl. f_equal. induction ts as [|t ts IH]; simpl; congruence.
Qed.

Lemma filter_flat_map {A B} (p : B -> bool) (f : A -> list B) l :
  filter p (flat_map f l) = flat_map (fun x => filter p (f x)) l.
Proof.
  induction l as [|x l IH]; simpl; [reflexivity|]. rewrite filter_app, IH.
  reflexivity.
Qed.

Lemma filter_all_false {A} (p : A -> bool) l :
  (forall x, In x l -> p x = false) -> filter p l = [].
Proof.
  induction l as [|x l IH]; simpl; intros H; [reflexivity|].
  rewrite H by (left; reflexivity). apply IH. intros y Hy. apply H. right. exact Hy.
Qed.

Lemma filter_all_true {A} (p : A -> bool) l :
  (forall x, In x l -> p x = true) -> filter p l = l.
Proof.
  induction l as [|x l IH]; simpl; intros H; [reflexivity|].
  rewrite H by (left; reflexivity). f_equal. apply IH. intros y Hy. apply H.
  right. exact Hy.
Qed.

Lemma card_rows_of s c :
  Forall (fun r => fst (fst r) = c)
    (flat_map (fun a => left_join_tags s c a)
       (filter (fun a => key_matches (c_answers_id c) (a_id a)) (st_answers s))).
Proof.
  apply Forall_forall. intros r Hr. apply in_flat_map in Hr.
  destruct Hr as (a & _ & Hr).
  pose proof (left_join_tags_card s c a) as H. rewrite Forall_forall in H.
  exact (H r Hr).
Qed.

(** In a store whose card identifiers are distinct, the rows of the
    group of a card [c] with exactly one answers row [a] are the outer
    join of [c] and [a]. *)
Lemma group_rows_card s c a :
  NoDup (map c_id (st_cards s)) -> In c (st_cards s) ->
  filter (fun a => key_matches (c_answers_id c) (a_id a)) (st_answers s) = [a] ->
  group_rows (c_id c) (joined_rows s) = left_join_tags s c a.
Proof.
  intros Hnd Hin Ha. unfold group_rows, joined_rows. rewrite filter_flat_map.
  assert (Hself : forall c', In c' (st_cards s) -> c_id c' = c_id c ->
      filter (fun r => row_card_id r =? c_id c)
        (flat_map (fun a => left_join_tags s c' a)
          (filter (fun a => key_matches (c_answers_id c') (a_id a)) (st_answers s)))
      = flat_map (fun a => left_join_tags s c' a)
          (filter (fun a => key_matches (c_answers_id c') (a_id a)) (st_answers s))).
  { intros c' _ Hid. apply filter_all_true. intros r Hr.
    pose proof (card_rows_of s c') as H. rewrite Forall_forall in H.
    unfold row_card_id. rewrite (H r Hr), Hid. apply Z.eqb_refl. }
  assert (Hother : forall c', c_id c' <> c_id c ->
      filter (fun r => row_card_id r =? c_id c)
        (flat_map (fun a => left_join_tags s c' a)
          (filter (fun a => key_matches (c_answers_id c') (a_id a)) (st_answers s)))
      = []).
  { intros c' Hid. apply filter_all_false. intros r Hr.
    pose proof (card_rows_of s c') as H. rewrite Forall_forall in H.
    unfold row_card_id. rewrite (H r Hr). apply Z.eqb_neq. exact Hid. }
  clear Hself. revert Hnd Hin.
  induction (st_cards s) as [|c0 cs IH]; intros Hnd Hin; [destruct Hin|].
  simpl in Hnd. inversion Hnd as [|? ? Hnotin Hnd']; subst. simpl.
  destruct Hin as [<-|Hin].
  - rewrite filter_all_true.
    2:{ intros r Hr. pose proof (card_rows_of s c0) as H.
        rewrite Forall_forall in H. unfold row_card_id. rewrite (H r Hr).
        apply Z.eqb_refl. }
    rewrite Ha. simpl. rewrite !app_nil_r.
    replace (flat_map _ cs) with (@nil joined_row); [apply app_nil_r|].
    symmetry. clear IH Hnd'.
    assert (Hne : forall c1, In c1 cs -> c_id c1 <> c_id c0).
    { intros c1 Hc1 E. apply Hnotin. rewrite <- E. apply in_map. exact Hc1. }
    clear Hnotin Hnd. revert Hne. induction cs as [|c1 cs IH]; intros Hne; [reflexivity|].
    simpl. rewrite Hother by (apply Hne; left; reflexivity). simpl.
    apply IH; intros c2 Hc2; apply Hne; right; exact Hc2.
  - rewrite Hother; [exact (IH Hnd' Hin)|].
    intros E. apply Hnotin. rewrite E. apply in_map. exact Hin.
Qed.

Lemma flat_map_nil {A B} (f : A -> list B) l :
  (forall x, In x l -> f x = []) -> flat_map f l = [].
Proof.
  induction l as [|x l IH]; simpl; intros H; [reflexivity|].
  rewrite H by (left; reflexivity). apply IH. intros y Hy. apply H. right. exact Hy.
Qed.

Lemma flat_map_filter_single {A B} (f : A -> list B) (p : B -> bool) l x v :
  NoDup l -> In x l -> (forall y, In y l -> y <> x -> filter p (f y) = []) ->
  filter p (f x) = [v] -> filter p (flat_map f l) = [v].
Proof.
  induction l as [|y l IH]; intros Hnd Hin Hoth Hx; [destruct Hin|].
  inversion Hnd as [|? ? Hy Hnd']; subst. simpl. rewrite filter_app.
  destruct Hin as [<-|Hin].
  - rewrite Hx, filter_flat_map, flat_map_nil; [reflexivity|].
    intros y' Hin. apply Hoth; [right; exact Hin|]. intros ->. exact (Hy Hin).
  - rewrite Hoth; [|left; reflexivity|intros ->; exact (Hy Hin)]. simpl.
    apply IH; auto. intros y' Hy' Hne. apply Hoth; [right; exact Hy'|exact Hne].
Qed.

Lemma grouped_rows_card s c a :
  NoDup (map c_id (st_cards s)) -> In c (st_cards s) ->
  filter (fun a => key_matches (c_answers_id c) (a_id a)) (st_answers s) = [a] ->
  filter (fun r => c_id (fst (fst r)) =? c_id c) (grouped_rows s) =
  [(c, a, group_concat (index_names s (c_id c)))].
Proof.
  intros Hnd Hin Ha. pose proof (group_rows_card s c a Hnd Hin Ha) as Hg.
  destruct (left_join_tags_head s c a) as (tg & rest & Hh).
  unfold grouped_rows. apply flat_map_filter_single with (x := c_id c).
  - apply NoDup_nodup.
  - apply nodup_In. apply in_map_iff. exists (c, a, tg). split; [reflexivity|].
    assert (Hr : In (c, a, tg) (group_rows (c_id c) (joined_rows s))).
    { rewrite Hg, Hh. left. reflexivity. }
    unfold group_rows in Hr. apply filter_In in Hr. apply Hr.
  - intros g _ Hne. destruct (group_rows g (joined_rows s)) as [|[[c' a'] n] rs] eqn:E;
    [reflexivity|].
    assert (Hr : In (c', a', n) (group_rows g (joined_rows s))) by (rewrite E; left; reflexivity).
    unfold group_rows in Hr. apply filter_In in Hr. destruct Hr as [_ Hr].
    unfold row_card_id in Hr. simpl in Hr. apply Z.eqb_eq in Hr. simpl.
    rewrite Hr. apply Z.eqb_neq in Hne. rewrite Hne. reflexivity.
  - rewrite Hg, left_join_tags_names, Hh. simpl. rewrite Z.eqb_refl. reflexivity.
Qed.

Lemma map_option_Forall2 {A B} (f : A -> option B) l l' :
  map_option f l = Some l' -> Forall2 (fun x y => f x = Some y) l l'.
Proof.
  revert l'. induction l as [|x l IH]; intros l' H; simpl in H.
  - injection H as <-. constructor.
  - destruct (f x) as [y|] eqn:Ef; [|discriminate].
    destruct (map_option f l) as [ys|] eqn:Er; [|discriminate].
    injection H as <-. constructor; auto.
Qed.

Lemma Forall2_filter {A B} (R : A -> B -> Prop) (p1 : A -> bool) (p2 : B -> bool) l1 l2 :
  (forall x y, R x y -> p2 y = p1 x) ->
  Forall2 R l1 l2 -> Forall2 R (filter p1 l1) (filter p2 l2).
Proof.
  intros Hp. induction 1 as [|x y l1 l2 Hxy _ IH]; simpl; [constructor|].
  rewrite (Hp _ _ Hxy). destruct (p1 x); [constructor|]; auto.
Qed.

Lemma Forall2_In_r {A B} (R : A -> B -> Prop) l1 l2 y :
  Forall2 R l1 l2 -> In y l2 -> exists x, In x l1 /\ R x y.
Proof.
  induction 1 as [|x y' l1 l2 Hxy _ IH]; intros Hin; [destruct Hin|].
  destruct Hin as [<-|Hin]; [exists x; split; [left; reflexivity|exact Hxy]|].
  destruct (IH Hin) as (x' & Hx' & Hr). exists x'. split; [right; exact Hx'|exact Hr].
Qed.

Lemma row_to_card_id J r x :
  row_to_card J r = Some x -> id x = c_id (fst (fst r)).
Proof.
  destruct r as [[c a] tg]. unfold row_to_card.
  destruct (decode_images J (c_images c)); [|discriminate].
  intros H. injection H as <-. reflexivity.
Qed.

(** The entry of [load_cards] for a card of a store with distinct card
    identifiers, joined to exactly one answers row: exactly one entry,
    built from the card, its answers row and the [GROUP_CONCAT] of its
    linked tag names. *)
Lemma load_cards_entry J s c a l :
  NoDup (map c_id (st_cards s)) -> In c (st_cards s) ->
  filter (fun a => key_matches (c_answers_id c) (a_id a)) (st_answers s) = [a] ->
  load_cards J s = Some l ->
  exists x, filter (fun x => id x =? c_id c) l = [x] /\
            row_to_card J (c, a, group_concat (index_names s (c_id c))) = Some x.
Proof.
  intros Hnd Hin Ha Hl. apply map_option_Forall2 in Hl.
  apply (Forall2_filter _ (fun r => c_id (fst (fst r)) =? c_id c)
                          (fun x => id x =? c_id c)) in Hl.
  2:{ intros r x Hr. rewrite (row_to_card_id _ _ _ Hr). reflexivity. }
  rewrite (grouped_rows_card s c a Hnd Hin Ha) in Hl.
  inversion Hl as [|r x ? l' Hr Hnil]; subst. inversion Hnil; subst.
  exists x. split; [reflexivity|exact Hr].
Qed.

(** Every entry of [load_cards] is built from a card row of the store. *)
Lemma load_cards_in J s l :
  load_cards J s = Some l ->
  forall x, In x l ->
  exists c a tg, In c (st_cards s) /\ row_to_card J (c, a, tg) = Some x.
Proof.
  intros Hl x Hx. apply map_option_Forall2 in Hl.
  destruct (Forall2_In_r _ _ _ _ Hl Hx) as ([[c a] tg] & Hr & Hrx).
  exists c, a, tg. split; [|exact Hrx].
  unfold grouped_rows in Hr. apply in_flat_map in Hr. destruct Hr as (g & _ & Hr).
  destruct (group_rows g (joined_rows s)) as [|[[c' a'] n] rs] eqn:E; [destruct Hr|].
  destruct Hr as [Hr|[]]. injection Hr as -> -> _.
  assert (Hr : In (c, a, n) (joined_rows s)).
  { assert (H : In (c, a, n) (group_rows g (joined_rows s))) by (rewrite E; left; reflexivity).
    unfold group_rows in H. apply filter_In in H. apply H. }
  unfold joined_rows in Hr. apply in_flat_map in Hr. destruct Hr as (c0 & Hc0 & Hr).
  pose proof (card_rows_of s c0) as H. rewrite Forall_forall in H.
  specialize (H _ Hr). simpl in H. subst c0. exact Hc0.
Qed.

(** ** When linking succeeds, and what it links *)

Lemma first_tag_name name l tg : first_tag name l = Some tg -> t_name tg = name.
Proof.
  unfold first_tag. intros H. apply find_some in H. destruct H as [_ H].
  apply String.eqb_eq. exact H.
Qed.

Lemma first_tag_in name l tg : first_tag name l = Some tg -> In tg l.
Proof. unfold first_tag. intros H. apply find_some in H. apply H. Qed.

Lemma NoDup_map_inj {A B} (f : A -> B) l x y :
  NoDup (map f l) -> In x l -> In y l -> f x = f y -> x = y.
Proof.
  induction l as [|z l IH]; simpl; intros Hnd Hx Hy E; [destruct Hx|].
  inversion Hnd as [|? ? Hz Hnd']; subst.
  destruct Hx as [<-|Hx], Hy as [<-|Hy]; auto.
  - exfalso. apply Hz. rewrite E. apply in_map. exact Hy.
  - exfalso. apply Hz. rewrite <- E. apply in_map. exact Hx.
Qed.

Lemma link_tags_spec cid ts s :
  NoDup (map lower ts) -> NoDup (map t_id (st_tags s)) ->
  (forall ct, In ct (st_card_tags s) -> ct_card_id ct = cid ->
     exists tg, In tg (st_tags s) /\ t_id tg = ct_tag_id ct /\
                ~ In (t_name tg) (map lower ts)) ->
  exists s' tgs, link_tags cid ts s = Ok (tt, s') /\
    st_cards s' = st_cards s /\ st_answers s' = st_answers s /\
    tags_evolve (st_tags s) (st_tags s') /\
    st_card_tags s' = st_card_tags s ++ map (link_of cid) tgs /\
    Forall2 (fun t tg => In tg (st_tags s') /\ t_name tg = lower t) ts tgs.
Proof.
  revert s. induction ts as [|t ts IH]; intros s Hnd Hid Hinv.
  - exists s, []. repeat split; try constructor. symmetry. apply app_nil_r.
  - simpl in Hnd. inversion Hnd as [|? ? Ht Hnd']; subst.
    destruct (resolve_tag_spec t s) as (tg & s1 & Hr & Hf & Hte & Hc & Ha & Hct & _).
    assert (Hid1 : NoDup (map t_id (st_tags s1))) by (eapply tags_evolve_nodup_ids; eauto).
    destruct (tags_evolve_prefix _ _ Hte) as [ex Hex].
    assert (Hsub : forall x, In x (st_tags s) -> In x (st_tags s1)).
    { intros x Hx. rewrite Hex. apply in_or_app. left. exact Hx. }
    assert (Hnl : has_link cid (t_id tg) (st_card_tags s1) = false).
    { apply Bool.not_true_iff_false. intros Hl. unfold has_link in Hl.
      apply existsb_exists in Hl. destruct Hl as (ct & Hin & Hb).
      apply andb_true_iff in Hb. destruct Hb as [E1 E2].
      apply Z.eqb_eq in E1, E2. rewrite Hct in Hin.
      destruct (Hinv ct Hin E1) as (tg' & Hin' & Hid' & Hn').
      assert (tg' = tg) as ->.
      { apply (NoDup_map_inj t_id (st_tags s1)); auto.
        - exact (first_tag_in _ _ _ Hf).
        - congruence. }
      apply Hn'. rewrite (first_tag_name _ _ _ Hf). left. reflexivity. }
    set (s2 := {| st_answers := st_answers s1; st_cards := st_cards s1;
                  st_tags := st_tags s1;
                  st_card_tags := st_card_tags s1 ++ [link_of cid tg] |}).
    assert (Hins : insert_card_tag cid (t_id tg) s1 = Ok (tt, s2)).
    { unfold insert_card_tag. unfold has_link in Hnl. rewrite Hnl. reflexivity. }
    destruct (IH s2 Hnd' Hid1) as (s' & tgs & Hl & Hc' & Ha' & Hte' & Hct' & Hall).
    { intros ct Hin E. simpl in Hin. apply in_app_or in Hin. destruct Hin as [Hin|[<-|[]]].
      - rewrite Hct in Hin. destruct (Hinv ct Hin E) as (tg' & Hin' & Hid' & Hn').
        exists tg'. split; [apply Hsub; exact Hin'|]. split; [exact Hid'|].
        intros H. apply Hn'. right. exact H.
      - exists tg. split; [exact (first_tag_in _ _ _ Hf)|]. split; [reflexivity|].
        rewrite (first_tag_name _ _ _ Hf). exact Ht. }
    exists s', (tg :: tgs). split.
    { rewrite link_tags_cons. unfold bind. rewrite Hr. rewrite Hins. exact Hl. }
    simpl in Hc', Ha', Hte', Hct'.
    split; [congruence|]. split; [congruence|]. split; [eapply tags_evolve_trans; eauto|].
    split; [rewrite Hct', Hct, <- app_assoc; reflexivity|].
    constructor; [|exact Hall]. split; [|exact (first_tag_name _ _ _ Hf)].
    destruct (tags_evolve_prefix _ _ Hte') as [ex' ->]. apply in_or_app. left.
    exact (first_tag_in _ _ _ Hf).
Qed.

Lemma filter_id_single l tg :
  NoDup (map t_id l) -> In tg l -> filter (fun t => t_id t =? t_id tg) l = [tg].
Proof.
  induction l as [|t l IH]; simpl; intros Hnd Hin; [destruct Hin|].
  inversion Hnd as [|? ? Ht Hnd']; subst. destruct Hin as [<-|Hin].
  - rewrite Z.eqb_refl. f_equal. apply filter_all_false. intros x Hx.
    apply Z.eqb_neq. intros E. apply Ht. rewrite <- E. apply in_map. exact Hx.
  - replace (t_id t =? t_id tg) with false; [exact (IH Hnd' Hin)|].
    symmetry. apply Z.eqb_neq. intros E. apply Ht. rewrite E. apply in_map. exact Hin.
Qed.

(** After linking [ts] to a card that had no link left, its linked names
    are the lower-cased [ts]. *)
Lemma linked_names_linked s cid L0 ts tgs :
  NoDup (map t_id (st_tags s)) ->
  (forall ct, In ct L0 -> ct_card_id ct <> cid) ->
  st_card_tags s = L0 ++ map (link_of cid) tgs ->
  Forall2 (fun t tg => In tg (st_tags s) /\ t_name tg = lower t) ts tgs ->
  linked_names s cid = map lower ts.
Proof.
  intros Hnd HL0 Hct Hall. unfold linked_names. rewrite Hct, filter_app.
  rewrite (filter_all_false _ L0).
  2:{ intros ct Hin. apply Z.eqb_neq. exact (HL0 ct Hin). }
  rewrite (filter_all_true _ (map _ tgs)).
  2:{ intros ct Hin. apply in_map_iff in Hin. destruct Hin as (tg & <- & _).
      apply Z.eqb_refl. }
  simpl. clear Hct. induction Hall as [|t tg ts tgs [Hin Hn] _ IH]; [reflexivity|].
  simpl. rewrite (filter_id_single _ _ Hnd Hin). simpl. rewrite Hn, IH. reflexivity.
Qed.

(** ** Decoding the [GROUP_CONCAT] text *)

Lemma split_comma_free w : comma_free w = true -> split_comma w = [w].
Proof.
  induction w as [|ch w IH]; simpl; [reflexivity|].
  intros H. apply andb_true_iff in H. destruct H as [H1 H2].
  apply negb_true_iff in H1. rewrite H1, (IH H2). reflexivity.
Qed.

Lemma split_comma_app w rest :
  comma_free w = true -> split_comma (w ++ String "," rest)%string = w :: split_comma rest.
Proof.
  induction w as [|ch w IH]; simpl; [reflexivity|].
  intros H. apply andb_true_iff in H. destruct H as [H1 H2].
  apply negb_true_iff in H1. rewrite H1, (IH H2). reflexivity.
Qed.

Lemma split_concat l :
  l <> [] -> Forall (fun w => comma_free w = true) l ->
  split_comma (String.concat "," l) = l.
Proof.
  induction l as [|w l IH]; intros Hne Hall; [congruence|].
  inversion Hall as [|? ? Hw Hl]; subst.
  destruct l as [|w' l]; [exact (split_comma_free _ Hw)|].
  change (String.concat "," (w :: w' :: l)) with
    (w ++ String "," (String.concat "," (w' :: l)))%string.
  rewrite (split_comma_app _ _ Hw), IH; [reflexivity|discriminate|exact Hl].
Qed.

(** Names that are non-empty and free of commas come back from the
    [GROUP_CONCAT] text as they are. *)
Lemma tag_list_group_concat l :
  Forall (fun w => w <> EmptyString /\ comma_free w = true) l ->
  tag_list (group_concat l) = l.
Proof.
  intros Hall. destruct l as [|w l]; [reflexivity|].
  inversion Hall as [|? ? [Hw _] _]; subst.
  assert (Hc : exists ch rest, String.concat "," (w :: l) = String ch rest).
  { destruct w as [|ch w0]; [congruence|]. destruct l; simpl; eauto. }
  destruct Hc as (ch & rest & Hc).
  change (group_concat (w :: l)) with (Some (String.concat "," (w :: l))).
  transitivity (split_comma (String.concat "," (w :: l))); [rewrite Hc; reflexivity|].
  apply split_concat; [discriminate|].
  eapply Forall_impl; [|exact Hall]. intros x [_ H]. exact H.
Qed.

(** ** The fields of a loaded entry *)

Lemma row_to_card_spec J c a tg x :
  row_to_card J (c, a, tg) = Some x ->
  exists imgs, decode_images J (c_images c) = Some imgs /\
    x = {| id := c_id c; front := c_front c; back := c_back c;
           last_asked := c_last_asked c; next_review := c_next_review c;
           retired := py_bool (c_retired c); tags := tag_list tg;
           images := imgs;
           answers := {| correct := a_correct a; partial := a_partial a;
                         incorrect := a_incorrect a |};
           streak := c_streak c |}.
Proof.
  unfold row_to_card. destruct (decode_images J (c_images c)) as [imgs|];
  [|discriminate]. intros H. injection H as <-. eauto.
Qed.

Lemma NoDup_app_intro {A} (l1 l2 : list A) :
  NoDup l1 -> NoDup l2 -> (forall x, In x l1 -> ~ In x l2) -> NoDup (l1 ++ l2).
Proof.
  induction l1 as [|y l1 IH]; simpl; intros H1 H2 Hd; [exact H2|].
  inversion H1 as [|? ? Hy H1']; subst. constructor.
  - intros Hin. apply in_app_or in Hin. destruct Hin as [Hin|Hin]; [exact (Hy Hin)|].
    exact (Hd y (or_introl eq_refl) Hin).
  - apply IH; [exact H1'|exact H2|]. intros x Hx. apply Hd. right. exact Hx.
Qed.

Lemma NoDup_map_filter {A B} (f : A -> B) p l :
  NoDup (map f l) -> NoDup (map f (filter p l)).
Proof.
  induction l as [|y l IH]; simpl; intros H; [constructor|].
  inversion H as [|? ? Hy H']; subst. destruct (p y); simpl; [|auto].
  constructor; [|auto]. intros Hin. apply Hy. apply in_map_iff in Hin.
  destruct Hin as (z & Hz & Hin). apply filter_In in Hin. rewrite <- Hz.
  apply in_map. apply Hin.
Qed.

(** Under the keys of the schema ([tags.name] unique, the primary key of
    [card_tags]) a card's linked names are distinct. *)
Lemma linked_names_nodup s cid :
  NoDup (map t_name (st_tags s)) ->
  NoDup (map ct_tag_id (filter (fun ct => ct_card_id ct =? cid) (st_card_tags s))) ->
  NoDup (linked_names s cid).
Proof.
  intros Hn. unfold linked_names.
  generalize (filter (fun ct => ct_card_id ct =? cid) (st_card_tags s)) as L.
  induction L as [|ct L IH]; simpl; intros HL; [constructor|].
  inversion HL as [|? ? Hct HL']; subst.
  apply NoDup_app_intro; [apply NoDup_map_filter; exact Hn|exact (IH HL')|].
  intros n Hn1 Hn2. apply in_map_iff in Hn1. destruct Hn1 as (tg & <- & Htg).
  apply filter_In in Htg. destruct Htg as [Htg E]. apply Z.eqb_eq in E.
  apply in_flat_map in Hn2. destruct Hn2 as (ct' & Hct' & Hn2).
  apply in_map_iff in Hn2. destruct Hn2 as (tg' & En & Htg').
  apply filter_In in Htg'. destruct Htg' as [Htg' E']. apply Z.eqb_eq in E'.
  assert (tg' = tg) as -> by exact (NoDup_map_inj t_name _ _ _ Hn Htg' Htg En).
  apply Hct. rewrite <- E, E'. apply in_map. exact Hct'.
Qed.

(** ** Fresh rows *)

Lemma NoDup_snoc_fresh {A} (l : list A) x :
  NoDup l -> ~ In x l -> NoDup (l ++ [x]).
Proof.
  intros Hl Hx. apply NoDup_app_intro; [exact Hl|constructor; [intros []|constructor]|].
  intros y Hy [<-|[]]. exact (Hx Hy).
Qed.

Lemma existsb_id_fresh cs i :
  ~ In i (map c_id cs) -> existsb (fun c => c_id c =? i) cs = false.
Proof.
  intros Hi. apply Bool.not_true_iff_false. intros H. apply existsb_exists in H.
  destruct H as (c & Hc & E). apply Z.eqb_eq in E. apply Hi. rewrite <- E.
  apply in_map. exact Hc.
Qed.

Lemma load_cards_ids J s l x :
  load_cards J s = Some l -> In x l -> In (id x) (map c_id (st_cards s)).
Proof.
  intros Hl Hx. destruct (load_cards_in J s l Hl x Hx) as (c & a & tg & Hc & Hr).
  rewrite (row_to_card_id _ _ _ Hr). apply in_map. exact Hc.
Qed.

(** ** One updated card, seen by [load_cards] *)

Lemma card_update_row_id u c : c_id (card_update_row u c) = c_id c.
Proof. unfold card_update_row. destruct (c_id c =? u_id u); reflexivity. Qed.

Lemma card_update_row_answers_id u c :
  c_answers_id (card_update_row u c) = c_answers_id c.
Proof. unfold card_update_row. destruct (c_id c =? u_id u); reflexivity. Qed.

Lemma answers_update_row_id key u a : a_id (answers_update_row key u a) = a_id a.
Proof. unfold answers_update_row. destruct (key_matches key (a_id a)); reflexivity. Qed.

Lemma filter_map_a_id (p : Z -> bool) (f : answers_row -> answers_row) l :
  (forall a, a_id (f a) = a_id a) ->
  filter (fun a => p (a_id a)) (map f l) = map f (filter (fun a => p (a_id a)) l).
Proof.
  intros Hf. induction l as [|a l IH]; simpl; [reflexivity|].
  rewrite Hf. destruct (p (a_id a)); simpl; rewrite IH; reflexivity.
Qed.

Lemma map_c_id_update u cs : map c_id (map (card_update_row u) cs) = map c_id cs.
Proof.
  induction cs as [|c cs IH]; simpl; [reflexivity|]. rewrite card_update_row_id, IH.
  reflexivity.
Qed.

(** ** What a batch with distinct identifiers stores *)

Lemma card_frame_keys b cs cs' :
  Forall2 (card_frame b) cs cs' -> map card_key cs' = map card_key cs.
Proof.
  induction 1 as [|c c' cs cs' (Hid & _ & _ & _ & Ha & _) _ IH]; simpl; [reflexivity|].
  unfold card_key at 1 3. rewrite Hid, Ha, IH. reflexivity.
Qed.

Lemma map_card_key_update u cs :
  map card_key (map (card_update_row u) cs) = map card_key cs.
Proof.
  induction cs as [|c cs IH]; simpl; [reflexivity|].
  unfold card_key at 1 3. rewrite card_update_row_id, card_update_row_answers_id, IH.
  reflexivity.
Qed.

Lemma one_to_one_keys cs cs' :
  map card_key cs' = map card_key cs -> answers_one_to_one cs -> answers_one_to_one cs'.
Proof.
  intros E H c1 c2 H1 H2 Hn Heq.
  assert (K1 : In (card_key c1) (map card_key cs)) by (rewrite <- E; apply in_map; exact H1).
  assert (K2 : In (card_key c2) (map card_key cs)) by (rewrite <- E; apply in_map; exact H2).
  apply in_map_iff in K1, K2. destruct K1 as (d1 & E1 & D1). destruct K2 as (d2 & E2 & D2).
  unfold card_key in E1, E2. injection E1 as Ei1 Ea1. injection E2 as Ei2 Ea2.
  rewrite <- Ei1, <- Ei2. apply H; [exact D1|exact D2|congruence|congruence].
Qed.

Lemma answers_ref_unique cs c :
  NoDup (map c_id cs) -> In c cs -> answers_ref cs (c_id c) = c_answers_id c.
Proof.
  intros Hnd Hin. unfold answers_ref.
  destruct (find (fun c0 => c_id c0 =? c_id c) cs) as [c0|] eqn:E.
  - apply find_some in E. destruct E as [H0 E]. apply Z.eqb_eq in E.
    rewrite (NoDup_map_inj c_id cs c0 c Hnd H0 Hin E). reflexivity.
  - apply (find_none _ _ E) in Hin. rewrite Z.eqb_refl in Hin. discriminate.
Qed.

Lemma answers_ref_some cs i k :
  answers_ref cs i = Some k -> exists c, In c cs /\ c_id c = i /\ c_answers_id c = Some k.
Proof.
  unfold answers_ref. destruct (find (fun c => c_id c =? i) cs) as [c|] eqn:E;
  [|discriminate]. intros Hk. apply find_some in E. destruct E as [Hin E].
  apply Z.eqb_eq in E. exists c. auto.
Qed.

Lemma Forall2_In_l {A B} (R : A -> B -> Prop) l1 l2 x :
  Forall2 R l1 l2 -> In x l1 -> exists y, In y l2 /\ R x y.
Proof.
  induction 1 as [|x' y l1 l2 Hxy _ IH]; intros Hin; [destruct Hin|].
  destruct Hin as [<-|Hin]; [exists y; split; [left; reflexivity|exact Hxy]|].
  destruct (IH Hin) as (y' & Hy' & R'). exists y'. split; [right; exact Hy'|exact R'].
Qed.

Lemma update_all_stores b s x s' :
  NoDup (map u_id b) -> NoDup (map c_id (st_cards s)) -> answers_one_to_one (st_cards s) ->
  update_all b s = Ok (x, s') ->
  forall u, In u b ->
    (exists c, In c (st_cards s') /\ c_id c = u_id u) /\
    forall c, In c (st_cards s') -> c_id c = u_id u ->
      stored_fields u c /\
      forall a, In a (st_answers s') -> c_answers_id c = Some (a_id a) -> stored_counts u a.
Proof.
  revert s. induction b as [|u us IH]; intros s Hu Hnd Hoo H u' Hin; [destruct Hin|].
  cbn [update_all] in H. apply bind_ok in H. destruct H as (y & s1 & H0 & H1).
  destruct (update_one_ok _ _ _ _ H0) as (Hex & Hc1 & Ha1 & _ & _ & _).
  simpl in Hu. inversion Hu as [|? ? Hnotin Hu']; subst.
  assert (Hnd1 : NoDup (map c_id (st_cards s1))) by (rewrite Hc1, map_c_id_update; exact Hnd).
  assert (Hoo1 : answers_one_to_one (st_cards s1)).
  { apply (one_to_one_keys (st_cards s)); [rewrite Hc1; apply map_card_key_update|exact Hoo]. }
  destruct Hin as [<-|Hin]; [|exact (IH s1 Hu' Hnd1 Hoo1 H1 u' Hin)].
  destruct (update_all_ok _ _ _ _ H1) as (Fc & Fa & _ & _ & _).
  assert (Hnb : in_batch us (u_id u) = false).
  { apply Bool.not_true_iff_false. intros Hb. apply existsb_exists in Hb.
    destruct Hb as (u2 & Hu2 & E). apply Z.eqb_eq in E. apply Hnotin. rewrite <- E.
    apply in_map. exact Hu2. }
  (* a card of [s1] with the identifier of [u] is the updated old row *)
  assert (Hs1 : forall c1, In c1 (st_cards s1) -> c_id c1 = u_id u ->
             exists c0, In c0 (st_cards s) /\ c_id c0 = u_id u /\
                        c1 = set_card_fields u c0).
  { intros c1 Hc Hid. rewrite Hc1 in Hc. apply in_map_iff in Hc.
    destruct Hc as (c0 & <- & Hc0). rewrite card_update_row_id in Hid.
    exists c0. split; [exact Hc0|]. split; [exact Hid|].
    unfold card_update_row. rewrite Hid, Z.eqb_refl. reflexivity. }
  split.
  - apply existsb_exists in Hex. destruct Hex as (c0 & Hc0 & E). apply Z.eqb_eq in E.
    assert (Hc0' : In (card_update_row u c0) (st_cards s1)) by (rewrite Hc1; apply in_map; exact Hc0).
    destruct (Forall2_In_l _ _ _ _ Fc Hc0') as (c2 & Hc2 & (Hid2 & _)).
    exists c2. split; [exact Hc2|]. rewrite Hid2, card_update_row_id. exact E.
  - intros c Hc Hid.
    destruct (Forall2_In_r _ _ _ _ Fc Hc) as (c1 & Hc1' & (Hid1 & _ & _ & _ & Hai1 & Hkeep)).
    rewrite Hid1 in Hid. rewrite Hid in Hkeep. specialize (Hkeep Hnb). subst c.
    destruct (Hs1 c1 Hc1' Hid) as (c0 & Hc0 & Hid0 & ->).
    split; [unfold stored_fields; simpl; auto|].
    intros a Ha Hra. simpl in Hra.
    destruct (Forall2_In_r _ _ _ _ Fa Ha) as (a1 & Ha1' & (Haid & Hakeep)).
    assert (a = a1) as ->.
    { apply Hakeep. intros u2 Hu2 Href.
      destruct (answers_ref_some _ _ _ Href) as (c2 & Hc2 & Hid2 & Hai2).
      assert (E : c_id (set_card_fields u c0) = c_id c2).
      { apply Hoo1; [exact Hc1'|exact Hc2| |]; simpl; congruence. }
      apply Hnotin. simpl in E. rewrite Hid0 in E. rewrite E, Hid2. apply in_map. exact Hu2. }
    rewrite Ha1 in Ha1'. apply in_map_iff in Ha1'. destruct Ha1' as (a0 & <- & _).
    rewrite answers_update_row_id in Hra. unfold answers_update_row.
    rewrite <- Hid0, (answers_ref_unique _ _ Hnd Hc0), Hra. simpl. rewrite Z.eqb_refl.
    unfold stored_counts. simpl. auto.
Qed.

(** * The claims *)

(** ** C1 *)

(** C1 (amended): every failure of [update_cards] leaves the four tables
    exactly as before the call. The entries are processed in order: when
    the entries before it commit, an unknown identifier raises NotFound,
    or OverflowError when it lies outside SQLite's 64-bit integers; when
    an entry before it fails, that entry's error is the one raised. *)
Theorem update_cards_rollback :
  (forall b s e s', update_cards b s = (Err e, s') -> s' = s) /\
  (forall b1 u b2 s s1,
     update_cards b1 s = (Ok tt, s1) ->
     existsb (fun c => c_id c =? u_id u) (st_cards s) = false ->
     update_cards (b1 ++ u :: b2) s =
       (Err (if fits_int64 (u_id u) then NotFound (u_id u) else OverflowError), s)) /\
  (forall b1 b2 s e s1,
     update_cards b1 s = (Err e, s1) -> update_cards (b1 ++ b2) s = (Err e, s)).
Proof.
  split; [|split].
  - intros b s e s'. unfold update_cards.
    destruct (update_all b s) as [[x s1]|e']; intros H; injection H; congruence.
  - intros b1 u b2 s s1 H1 Hn. unfold update_cards in H1 |- *.
    destruct (update_all b1 s) as [[x s1']|e] eqn:E1; [|discriminate].
    injection H1 as <-. rewrite update_all_app.
    unfold bind at 1. rewrite E1. cbn [update_all]. unfold bind at 1.
    destruct (update_all_ok _ _ _ _ E1) as (Hc & _).
    assert (Hn1 : existsb (fun c => c_id c =? u_id u) (st_cards s1') = false).
    { rewrite <- Hn. apply existsb_card_id. eapply card_frame_ids. exact Hc. }
    rewrite update_one_eq, Hn1.
    destruct (fits_int64 (u_id u)); reflexivity.
  - intros b1 b2 s e s1 H1. unfold update_cards in H1 |- *.
    destruct (update_all b1 s) as [[x s1']|e'] eqn:E1; [discriminate|].
    injection H1 as <- _. rewrite update_all_app. unfold bind at 1. rewrite E1.
    reflexivity.
Qed.

(** ** C4 *)

(** C4: two names equal up to letter case resolve to the same tag
    identifier, the second resolution leaving the store as the first
    left it; and neither [update_cards] nor [add_cards], whatever they
    resolve and however often, brings a name to two rows of [tags]. *)
Theorem resolve_tag_case_insensitive :
  (forall t1 t2 s, lower t1 = lower t2 ->
     exists i s1, resolve_tag t1 s = Ok (i, s1) /\ resolve_tag t2 s1 = Ok (i, s1)) /\
  (forall name b nb s, (count_name name (st_tags s) <= 1)%nat ->
     (count_name name (st_tags (snd (update_cards b s))) <= 1)%nat /\
     (count_name name (st_tags (snd (add_cards nb s))) <= 1)%nat).
Proof.
  split.
  - intros t1 t2 s E.
    destruct (resolve_tag_spec t1 s) as (tg & s1 & Hr1 & Hf1 & _).
    destruct (resolve_tag_spec t2 s1) as (tg2 & s2 & Hr2 & _ & _ & _ & _ & _ & Hold).
    rewrite <- E in Hold. destruct (Hold tg Hf1) as [-> ->].
    exists (t_id tg), s1. split; assumption.
  - intros name b nb s H. split.
    + eapply tags_evolve_count; [apply update_cards_tags|exact H].
    + eapply tags_evolve_count; [apply add_cards_tags|exact H].
Qed.

(** ** C8 *)

(** C8: after a successful [update_cards], every card row keeps its
    identifier, last-asked and next-review dates, image encoding and
    stats reference; a card the batch does not name keeps its whole row
    and its links; an answers row no card of the batch refers to is kept. *)
Theorem update_cards_frame b s s' :
  update_cards b s = (Ok tt, s') ->
  Forall2 (card_frame b) (st_cards s) (st_cards s') /\
  Forall2 (answers_frame (st_cards s) b) (st_answers s) (st_answers s') /\
  filter (fun ct => negb (in_batch b (ct_card_id ct))) (st_card_tags s') =
  filter (fun ct => negb (in_batch b (ct_card_id ct))) (st_card_tags s).
Proof.
  unfold update_cards. destruct (update_all b s) as [[x s1]|e] eqn:H; intros E;
  [|discriminate]. injection E as <-.
  destruct (update_all_ok _ _ _ _ H) as (Hc & Ha & _ & Hct & _). auto.
Qed.

(** ** C10 *)

(** C10: a card whose tags repeat a name up to letter case makes both
    writers fail with the integrity error of the [card_tags] primary key
    (for [update_cards], when every identifier of the batch exists and
    every integer of the batch is a 64-bit one), the store being left as
    it was. *)
Theorem duplicate_tags_fail :
  (forall b s u,
     In u b -> ~ NoDup (map lower (u_tags u)) ->
     (forall u', In u' b -> existsb (fun c => c_id c =? u_id u') (st_cards s) = true) ->
     (forall u', In u' b -> entry_fits u' = true) ->
     update_cards b s = (Err IntegrityError, s)) /\
  (forall nb s nc,
     In nc nb -> ~ NoDup (map lower (n_tags nc)) ->
     add_cards nb s = (Err IntegrityError, s)).
Proof.
  split.
  - intros b s u Hin Hdup Hall Hfit. unfold update_cards.
    destruct (update_all b s) as [[x s']|e] eqn:H.
    + exfalso. apply Hdup. destruct (update_all_ok _ _ _ _ H) as (_ & _ & _ & _ & Hnd).
      exact (Hnd u Hin).
    + destruct (update_all_err _ _ _ H) as [->|[(_ & u' & Hu' & Hf)|(u' & Hu' & _ & Hn)]];
        [reflexivity| |].
      * rewrite (Hfit u' Hu') in Hf. discriminate.
      * rewrite (Hall u' Hu') in Hn. discriminate.
  - intros nb s nc Hin Hdup. unfold add_cards.
    destruct (add_all nb s) as [[x s']|e] eqn:H.
    + exfalso. apply Hdup. destruct (add_all_ok _ _ _ _ H) as (_ & Hnd).
      exact (Hnd nc Hin).
    + rewrite (add_all_err _ _ _ H). reflexivity.
Qed.

(** ** C9 *)

(** C9: every entry of [load_cards] comes from a card row; its
    [retired] field is the boolean [bool(retired)] of the stored value
    (true exactly when a non-zero integer is stored), and its [images]
    field is the decoded image text, an absent or empty text giving the
    empty list. *)
Theorem load_cards_retired_images J s l x :
  load_cards J s = Some l -> In x l ->
  exists c, In c (st_cards s) /\ id x = c_id c /\
    (retired x = true <-> exists z, c_retired c = Some z /\ z <> 0) /\
    match c_images c with
    | None | Some EmptyString => images x = JArr []
    | Some t => J t = Some (images x)
    end.
Proof.
  intros Hl Hx. destruct (load_cards_in J s l Hl x Hx) as (c & a & tg & Hc & Hr).
  destruct (row_to_card_spec _ _ _ _ _ Hr) as (imgs & Himg & ->).
  exists c. split; [exact Hc|]. split; [reflexivity|]. split.
  - simpl. unfold py_bool. destruct (c_retired c) as [z|].
    + split.
      * intros H. exists z. split; [reflexivity|]. apply negb_true_iff in H.
        apply Z.eqb_neq. exact H.
      * intros (z' & E & Hz). injection E as <-. apply negb_true_iff.
        apply Z.eqb_neq. exact Hz.
    + split; [discriminate|]. intros (z & E & _). discriminate.
  - simpl. unfold decode_images in Himg.
    destruct (c_images c) as [[|ch t]|]; congruence.
Qed.

(** ** C6 *)

(** C6: in a store whose card identifiers are distinct, a card joined
    to its one answers row and linked to no tag is returned by
    [load_cards] exactly once, with the empty tag list. *)
Theorem load_cards_untagged J s c a l :
  NoDup (map c_id (st_cards s)) -> In c (st_cards s) ->
  filter (fun a => key_matches (c_answers_id c) (a_id a)) (st_answers s) = [a] ->
  (forall ct, In ct (st_card_tags s) -> ct_card_id ct <> c_id c) ->
  load_cards J s = Some l ->
  exists x, filter (fun x => id x =? c_id c) l = [x] /\ tags x = [].
Proof.
  intros Hnd Hin Ha Hct Hl.
  destruct (load_cards_entry J s c a l Hnd Hin Ha Hl) as (x & Hf & Hr).
  exists x. split; [exact Hf|].
  assert (E : index_names s (c_id c) = []).
  { unfold index_names. rewrite filter_all_false; [reflexivity|].
    intros ct Hin'. apply Z.eqb_neq. exact (Hct ct Hin'). }
  rewrite E in Hr. destruct (row_to_card_spec _ _ _ _ _ Hr) as (imgs & _ & ->).
  reflexivity.
Qed.

(** ** C7 *)

(** C7 (amended): when the names linked to a card are non-empty and
    contain no comma, its entry of [load_cards] lists exactly the linked
    names, one per link, in some order (SQLite reads them by tag
    identifier); under the keys of the schema ([tags.name] unique, the
    primary key of [card_tags]) they are distinct. *)
Theorem load_cards_tags_roundtrip J s c a l :
  NoDup (map c_id (st_cards s)) -> In c (st_cards s) ->
  filter (fun a => key_matches (c_answers_id c) (a_id a)) (st_answers s) = [a] ->
  Forall (fun w => w <> EmptyString /\ comma_free w = true) (linked_names s (c_id c)) ->
  load_cards J s = Some l ->
  exists x, filter (fun x => id x =? c_id c) l = [x] /\
    Permutation (tags x) (linked_names s (c_id c)) /\
    (NoDup (map t_name (st_tags s)) ->
     NoDup (map ct_tag_id (filter (fun ct => ct_card_id ct =? c_id c) (st_card_tags s))) ->
     NoDup (tags x)).
Proof.
  intros Hnd Hin Ha Hw Hl.
  destruct (load_cards_entry J s c a l Hnd Hin Ha Hl) as (x & Hf & Hr).
  destruct (row_to_card_spec _ _ _ _ _ Hr) as (imgs & _ & Hx).
  assert (Ht : Permutation (tags x) (linked_names s (c_id c))).
  { rewrite Hx. simpl. rewrite tag_list_group_concat; [apply index_names_perm|].
    eapply Permutation_Forall; [symmetry; apply index_names_perm|exact Hw]. }
  exists x. split; [exact Hf|]. split; [exact Ht|].
  intros Hn Hk. apply (Permutation_NoDup (Permutation_sym Ht)).
  apply linked_names_nodup; assumption.
Qed.

(** ** C2 *)

(** C2: in a store with distinct card and tag identifiers whose links
    all name existing cards, [add_cards] of a single card whose tags,
    lower-cased, are distinct, non-empty and free of commas commits; a
    following [load_cards] returns exactly one entry not among the cards
    already stored, carrying the given front and back, the lower-cased
    tags (in some order: SQLite reads them by tag identifier), streak 0, retired false, zero counts and the default dates. *)
Theorem add_cards_roundtrip J s nc :
  NoDup (map c_id (st_cards s)) -> NoDup (map t_id (st_tags s)) ->
  (forall ct, In ct (st_card_tags s) -> In (ct_card_id ct) (map c_id (st_cards s))) ->
  NoDup (map lower (n_tags nc)) ->
  Forall (fun w => w <> EmptyString /\ comma_free w = true) (map lower (n_tags nc)) ->
  exists s', add_cards [nc] s = (Ok tt, s') /\
  forall l, load_cards J s' = Some l ->
  exists x,
    filter (fun x => negb (existsb (fun c => c_id c =? id x) (st_cards s))) l = [x] /\
    front x = n_front nc /\ back x = n_back nc /\
    Permutation (tags x) (map lower (n_tags nc)) /\
    streak x = 0 /\ retired x = false /\
    answers x = {| correct := 0; partial := 0; incorrect := 0 |} /\
    last_asked x = "2024-01-01" /\ next_review x = "2024-01-01".
Proof.
  intros Hnd Htid Hfk Hlow Hw.
  set (aid := next_rowid (map a_id (st_answers s))).
  set (cid := next_rowid (map c_id (st_cards s))).
  set (arow := {| a_id := aid; a_correct := 0; a_partial := 0; a_incorrect := 0 |}).
  set (nrow := {| c_id := cid; c_front := n_front nc; c_back := n_back nc;
                  c_last_asked := default_review_date;
                  c_next_review := default_review_date;
                  c_retired := Some 0; c_streak := 0; c_images := Some "[]";
                  c_answers_id := Some aid |}).
  set (s2 := {| st_answers := st_answers s ++ [arow]; st_cards := st_cards s ++ [nrow];
                st_tags := st_tags s; st_card_tags := st_card_tags s |}).
  assert (Hfresh : ~ In cid (map c_id (st_cards s))) by apply next_rowid_not_in.
  destruct (link_tags_spec cid (n_tags nc) s2 Hlow Htid)
    as (s' & tgs & Hl & Hc & Ha & Hte & Hct & Hall).
  { intros ct Hin E. exfalso. apply Hfresh. rewrite <- E. apply Hfk. exact Hin. }
  exists s'. split.
  { unfold add_cards. cbn [add_all]. unfold bind at 1.
    replace (add_one nc s) with (link_tags cid (n_tags nc) s2) by reflexivity.
    rewrite Hl. reflexivity. }
  intros l Hload.
  assert (Hnd' : NoDup (map c_id (st_cards s'))).
  { rewrite Hc. simpl. rewrite map_app. apply NoDup_snoc_fresh; assumption. }
  assert (Hin : In nrow (st_cards s')).
  { rewrite Hc. apply in_or_app. right. left. reflexivity. }
  assert (Ha1 : filter (fun a => key_matches (c_answers_id nrow) (a_id a)) (st_answers s')
                = [arow]).
  { rewrite Ha. simpl. rewrite filter_app, filter_all_false; [simpl; rewrite Z.eqb_refl; reflexivity|].
    intros a Ha0. apply Z.eqb_neq. intros E. apply (next_rowid_not_in (map a_id (st_answers s))).
    fold aid. rewrite E. apply in_map. exact Ha0. }
  assert (Hnames : linked_names s' cid = map lower (n_tags nc)).
  { apply (linked_names_linked s' cid (st_card_tags s) (n_tags nc) tgs).
    - eapply tags_evolve_nodup_ids; [exact Hte|exact Htid].
    - intros ct Hct0 E. apply Hfresh. rewrite <- E. apply Hfk. exact Hct0.
    - exact Hct.
    - exact Hall. }
  assert (Hp : Permutation (index_names s' cid) (map lower (n_tags nc))).
  { rewrite <- Hnames. apply index_names_perm. }
  destruct (load_cards_entry J s' nrow arow l Hnd' Hin Ha1 Hload) as (x & Hf & Hr).
  change (c_id nrow) with cid in Hf, Hr.
  destruct (row_to_card_spec _ _ _ _ _ Hr) as (imgs & _ & Hx).
  exists x. split.
  - rewrite <- Hf. apply filter_ext_in. intros y Hy.
    pose proof (load_cards_ids J s' l y Hload Hy) as Hid.
    rewrite Hc in Hid. simpl in Hid. rewrite map_app in Hid.
    apply in_app_or in Hid. destruct Hid as [Hid|[Hid|[]]].
    + replace (existsb (fun c => c_id c =? id y) (st_cards s)) with true.
      * symmetry. apply Z.eqb_neq. intros E. apply Hfresh. rewrite <- E. exact Hid.
      * symmetry. apply existsb_exists. apply in_map_iff in Hid.
        destruct Hid as (c & E & Hc0). exists c. split; [exact Hc0|]. apply Z.eqb_eq. exact E.
    + rewrite <- Hid. rewrite existsb_id_fresh by exact Hfresh.
      simpl. symmetry. apply Z.eqb_refl.
  - rewrite Hx. simpl. split; [reflexivity|]. split; [reflexivity|].
    split.
    { rewrite tag_list_group_concat; [exact Hp|].
      eapply Permutation_Forall; [symmetry; exact Hp|exact Hw]. }
    repeat split; reflexivity.
Qed.

(** ** C3 *)

(** C3: replacing through [update_cards] the tags of an existing card
    (of a store with distinct card and tag identifiers, joined to its
    answers row) by a list whose lower-cased names are distinct,
    non-empty and free of commas, with an entry whose integers are
    64-bit ones, commits, keeps every row of [tags], and a following
    [load_cards] shows exactly those names for the card (in some order:
    SQLite reads them by tag identifier); and
    no call of [update_cards] or [add_cards] removes a row of [tags]:
    the old table is a prefix of the new one. *)
Theorem update_cards_replace_tags :
  (forall J s u c a,
     NoDup (map c_id (st_cards s)) -> NoDup (map t_id (st_tags s)) ->
     In c (st_cards s) -> u_id u = c_id c ->
     filter (fun a => key_matches (c_answers_id c) (a_id a)) (st_answers s) = [a] ->
     NoDup (map lower (u_tags u)) ->
     Forall (fun w => w <> EmptyString /\ comma_free w = true) (map lower (u_tags u)) ->
     entry_fits u = true ->
     exists s', update_cards [u] s = (Ok tt, s') /\
       (forall tg, In tg (st_tags s) -> In tg (st_tags s')) /\
       forall l, load_cards J s' = Some l ->
       exists x, filter (fun x => id x =? c_id c) l = [x] /\
                 Permutation (tags x) (map lower (u_tags u))) /\
  (forall b nb s,
     (exists extra, st_tags (snd (update_cards b s)) = st_tags s ++ extra) /\
     (exists extra, st_tags (snd (add_cards nb s)) = st_tags s ++ extra)).
Proof.
  split.
  2:{ intros b nb s. split; apply tags_evolve_prefix;
      [apply update_cards_tags|apply add_cards_tags]. }
  intros J s u c a Hnd Htid Hin Hid Ha Hlow Hw Hfit.
  assert (Hfid : fits_int64 (u_id u) = true).
  { unfold entry_fits in Hfit.
    destruct (fits_int64 (u_id u)); [reflexivity|simpl in Hfit; discriminate]. }
  assert (Hex : existsb (fun c0 => c_id c0 =? u_id u) (st_cards s) = true).
  { apply existsb_exists. exists c. split; [exact Hin|]. rewrite Hid. apply Z.eqb_refl. }
  set (key := answers_ref (map (card_update_row u) (st_cards s)) (u_id u)).
  set (s3 := {| st_answers := map (answers_update_row key u) (st_answers s);
                st_cards := map (card_update_row u) (st_cards s);
                st_tags := st_tags s;
                st_card_tags := filter (fun ct => negb (ct_card_id ct =? u_id u))
                                       (st_card_tags s) |}).
  assert (Hone : update_one u s = link_tags (u_id u) (u_tags u) s3).
  { rewrite update_one_eq, Hfid, Hex, Hfit. reflexivity. }
  destruct (link_tags_spec (u_id u) (u_tags u) s3 Hlow Htid)
    as (s' & tgs & Hl & Hc & Ha' & Hte & Hct & Hall).
  { intros ct Hct0 E. exfalso. simpl in Hct0. apply filter_In in Hct0.
    destruct Hct0 as [_ Hn]. rewrite E, Z.eqb_refl in Hn. discriminate. }
  exists s'. split.
  { unfold update_cards. cbn [update_all]. unfold bind at 1. rewrite Hone, Hl.
    reflexivity. }
  split.
  { destruct (tags_evolve_prefix _ _ Hte) as [extra He]. intros tg Htg.
    rewrite He. apply in_or_app. left. exact Htg. }
  intros l Hload.
  set (c' := card_update_row u c).
  assert (Hnd' : NoDup (map c_id (st_cards s'))).
  { rewrite Hc. simpl. rewrite map_c_id_update. exact Hnd. }
  assert (Hin' : In c' (st_cards s')).
  { rewrite Hc. apply in_map. exact Hin. }
  assert (Ha1 : filter (fun a0 => key_matches (c_answers_id c') (a_id a0)) (st_answers s')
                = [answers_update_row key u a]).
  { rewrite Ha'. simpl. unfold c'. rewrite card_update_row_answers_id.
    rewrite (filter_map_a_id (key_matches (c_answers_id c))).
    - rewrite Ha. reflexivity.
    - apply answers_update_row_id. }
  assert (Hnames : linked_names s' (c_id c) = map lower (u_tags u)).
  { rewrite <- Hid.
    apply (linked_names_linked s' (u_id u)
             (filter (fun ct => negb (ct_card_id ct =? u_id u)) (st_card_tags s))
             (u_tags u) tgs).
    - eapply tags_evolve_nodup_ids; [exact Hte|exact Htid].
    - intros ct Hct0 E. apply filter_In in Hct0. destruct Hct0 as [_ Hn].
      rewrite E, Z.eqb_refl in Hn. discriminate.
    - exact Hct.
    - exact Hall. }
  destruct (load_cards_entry J s' c' _ l Hnd' Hin' Ha1 Hload) as (x & Hf & Hr).
  assert (Hp : Permutation (index_names s' (c_id c)) (map lower (u_tags u))).
  { rewrite <- Hnames. apply index_names_perm. }
  unfold c' in Hf, Hr. rewrite card_update_row_id in Hf, Hr.
  destruct (row_to_card_spec _ _ _ _ _ Hr) as (imgs & _ & Hx).
  exists x. split; [exact Hf|]. rewrite Hx. simpl.
  rewrite tag_list_group_concat; [exact Hp|].
  eapply Permutation_Forall; [symmetry; exact Hp|exact Hw].
Qed.

(** ** C5 *)

(** C5 (amended): for a committed batch whose identifiers are pairwise
    distinct, over a store with distinct card identifiers where distinct
    cards refer to distinct answers rows, each entry's card exists
    afterwards and stores the supplied front, back, retired flag (as the
    integer 0 or 1) and streak, and the answers row its stored reference
    reaches holds the supplied counts. *)
Theorem update_cards_stores b s s' :
  NoDup (map u_id b) -> NoDup (map c_id (st_cards s)) -> answers_one_to_one (st_cards s) ->
  update_cards b s = (Ok tt, s') ->
  forall u, In u b ->
    (exists c, In c (st_cards s') /\ c_id c = u_id u) /\
    forall c, In c (st_cards s') -> c_id c = u_id u ->
      stored_fields u c /\
      forall a, In a (st_answers s') -> c_answers_id c = Some (a_id a) -> stored_counts u a.
Proof.
  intros Hu Hnd Hoo H. unfold update_cards in H.
  destruct (update_all b s) as [[x s1]|e] eqn:E; [|discriminate].
  injection H as <-. exact (update_all_stores b s x s1 Hu Hnd Hoo E).
Qed.

(** * Further properties of the module *)

(** ** The writers keep the constraints of the schema *)

Lemma tags_evolve_nodup_names l l' :
  tags_evolve l l' -> NoDup (map t_name l) -> NoDup (map t_name l').
Proof.
  induction 1 as [l|l l' nm Hn _ IH]; intros H; [exact H|]. apply IH.
  rewrite map_app. apply NoDup_snoc_fresh; [exact H|]. intros Hin.
  apply in_map_iff in Hin. destruct Hin as (t & E & Ht).
  assert (Hb : has_tag nm l = true).
  { apply existsb_exists. exists t. split; [exact Ht|]. apply String.eqb_eq. exact E. }
  congruence.
Qed.

Lemma tags_evolve_incl l l' x : tags_evolve l l' -> In x l -> In x l'.
Proof.
  intros H Hx. destruct (tags_evolve_prefix _ _ H) as [extra ->].
  apply in_or_app. left. exact Hx.
Qed.

Lemma in_map_incl {A B} (f : A -> B) l l' y :
  (forall x, In x l -> In x l') -> In y (map f l) -> In y (map f l').
Proof.
  intros H Hy. apply in_map_iff in Hy. destruct Hy as (x & <- & Hx).
  apply in_map. apply H. exact Hx.
Qed.

Lemma wf_tags_step s s' :
  well_formed s -> tags_evolve (st_tags s) (st_tags s') ->
  st_cards s' = st_cards s -> st_answers s' = st_answers s ->
  st_card_tags s' = st_card_tags s -> well_formed s'.
Proof.
  intros W Hte Hc Ha Hct. destruct W.
  split; rewrite ?Hc, ?Ha, ?Hct; auto.
  - eapply tags_evolve_nodup_ids; eauto.
  - eapply tags_evolve_nodup_names; eauto.
  - intros ct Hin. apply (in_map_incl t_id (st_tags s)); [|auto].
    intros x. apply tags_evolve_incl. exact Hte.
Qed.

Lemma has_link_key cid tid l :
  has_link cid tid l = false -> ~ In (cid, tid) (map link_key l).
Proof.
  intros H Hin. apply in_map_iff in Hin. destruct Hin as (ct & E & Hct).
  unfold link_key in E. injection E as E1 E2.
  assert (Hb : has_link cid tid l = true).
  { apply existsb_exists. exists ct. split; [exact Hct|].
    rewrite E1, E2, !Z.eqb_refl. reflexivity. }
  congruence.
Qed.

Lemma wf_add_link s cid tid :
  well_formed s -> In cid (map c_id (st_cards s)) -> In tid (map t_id (st_tags s)) ->
  has_link cid tid (st_card_tags s) = false ->
  well_formed {| st_answers := st_answers s; st_cards := st_cards s;
                 st_tags := st_tags s;
                 st_card_tags := st_card_tags s ++
                   [{| ct_card_id := cid; ct_tag_id := tid |}] |}.
Proof.
  intros W Hc Ht Hl. destruct W. split; simpl; auto.
  - rewrite map_app. apply NoDup_snoc_fresh; [assumption|]. exact (has_link_key _ _ _ Hl).
  - intros ct Hin. apply in_app_or in Hin. destruct Hin as [Hin|[<-|[]]]; auto.
  - intros ct Hin. apply in_app_or in Hin. destruct Hin as [Hin|[<-|[]]]; auto.
Qed.

Lemma wf_link_tags_ok cid ts s x s' :
  well_formed s -> In cid (map c_id (st_cards s)) ->
  link_tags cid ts s = Ok (x, s') -> well_formed s'.
Proof.
  revert s. induction ts as [|t ts IH]; intros s W Hc H.
  - injection H as _ <-. exact W.
  - rewrite link_tags_cons in H. apply bind_ok in H. destruct H as (i & s1 & H0 & H1).
    destruct (resolve_tag_spec t s) as (tg & s1' & Hr & Hf & Hte & Hc1 & Ha1 & Hct1 & _).
    rewrite Hr in H0. injection H0 as <- <-.
    assert (W1 : well_formed s1') by (eapply wf_tags_step; eauto).
    apply bind_ok in H1. destruct H1 as (y & s2 & H2 & H3).
    destruct (insert_card_tag_ok _ _ _ _ _ H2) as [Hl ->].
    apply (IH _ (wf_add_link _ _ _ W1 ltac:(rewrite Hc1; exact Hc)
                  ltac:(apply in_map; exact (first_tag_in _ _ _ Hf)) Hl)).
    + simpl. rewrite Hc1. exact Hc.
    + exact H3.
Qed.

Lemma map_a_id_update key u l :
  map a_id (map (answers_update_row key u) l) = map a_id l.
Proof.
  induction l as [|a l IH]; simpl; [reflexivity|]. rewrite answers_update_row_id, IH.
  reflexivity.
Qed.

Lemma wf_update_one u s x s' :
  well_formed s -> update_one u s = Ok (x, s') -> well_formed s'.
Proof.
  intros W H4. rewrite update_one_eq in H4.
  destruct (fits_int64 (u_id u)); [|discriminate].
  destruct (existsb (fun c => c_id c =? u_id u) (st_cards s)) eqn:Hex; [|discriminate].
  destruct (entry_fits u); [|discriminate]. simpl in H4. unfold entry_written in H4.
  set (key := answers_ref (map (card_update_row u) (st_cards s)) (u_id u)).
  assert (Hin : In (u_id u) (map c_id (map (card_update_row u) (st_cards s)))).
  { rewrite map_c_id_update.
    apply existsb_exists in Hex. destruct Hex as (c & Hc & E). apply Z.eqb_eq in E.
    rewrite <- E. apply in_map. exact Hc. }
  assert (W3 : well_formed
    {| st_answers := map (answers_update_row key u) (st_answers s);
       st_cards := map (card_update_row u) (st_cards s);
       st_tags := st_tags s;
       st_card_tags := filter (fun ct => negb (ct_card_id ct =? u_id u))
                              (st_card_tags s) |}).
  { destruct W. split; simpl.
    - rewrite map_c_id_update. assumption.
    - rewrite map_a_id_update. assumption.
    - assumption.
    - assumption.
    - apply NoDup_map_filter. assumption.
    - intros ct Hct. apply filter_In in Hct. rewrite map_c_id_update.
      apply wf_link_cards0. apply Hct.
    - intros ct Hct. apply filter_In in Hct. apply wf_link_tags0. apply Hct.
    - intros c Hc. apply in_map_iff in Hc. destruct Hc as (c0 & <- & Hc0).
      rewrite card_update_row_answers_id, map_a_id_update. auto.
    - apply (one_to_one_keys (st_cards s)); [apply map_card_key_update|assumption]. }
  exact (wf_link_tags_ok _ _ _ _ _ W3 Hin H4).
Qed.

Lemma wf_add_one nc s x s' :
  well_formed s -> add_one nc s = Ok (x, s') -> well_formed s'.
Proof.
  intros W H. unfold add_one in H. apply bind_ok in H. destruct H as (aid0 & s1 & H0 & H1).
  unfold insert_answers_zero in H0. injection H0 as <- <-.
  apply bind_ok in H1. destruct H1 as (cid0 & s2 & H1 & Hl).
  unfold insert_card in H1. injection H1 as <- <-.
  set (aid := next_rowid (map a_id (st_answers s))).
  set (cid := next_rowid (map c_id (st_cards s))).
  set (arow := {| a_id := aid; a_correct := 0; a_partial := 0; a_incorrect := 0 |}).
  set (nrow := {| c_id := cid; c_front := n_front nc; c_back := n_back nc;
                  c_last_asked := default_review_date;
                  c_next_review := default_review_date;
                  c_retired := Some 0; c_streak := 0; c_images := Some "[]";
                  c_answers_id := Some aid |}).
  assert (Fa : ~ In aid (map a_id (st_answers s))) by apply next_rowid_not_in.
  assert (Fc : ~ In cid (map c_id (st_cards s))) by apply next_rowid_not_in.
  assert (Hsub : forall c, In c (st_cards s) -> In c (st_cards s ++ [nrow]))
    by (intros c Hc; apply in_or_app; left; exact Hc).
  assert (W2 : well_formed {| st_answers := st_answers s ++ [arow];
                              st_cards := st_cards s ++ [nrow];
                              st_tags := st_tags s; st_card_tags := st_card_tags s |}).
  { destruct W. split; simpl.
    - rewrite map_app. apply NoDup_snoc_fresh; assumption.
    - rewrite map_app. apply NoDup_snoc_fresh; assumption.
    - assumption.
    - assumption.
    - assumption.
    - intros ct Hct. apply (in_map_incl c_id (st_cards s)); [exact Hsub|auto].
    - assumption.
    - rewrite map_app. intros c Hc. apply in_app_or in Hc. destruct Hc as [Hc|[<-|[]]].
      + destruct (wf_card_answers0 c Hc) as (k & Hk & Hin).
        exists k. split; [exact Hk|]. apply in_or_app. left. exact Hin.
      + exists aid. split; [reflexivity|]. apply in_or_app. right. left. reflexivity.
    - intros c1 c2 H1 H2 Hn E. apply in_app_or in H1, H2.
      destruct H1 as [H1|[<-|[]]], H2 as [H2|[<-|[]]].
      + exact (wf_one_to_one0 c1 c2 H1 H2 Hn E).
      + exfalso. destruct (wf_card_answers0 c1 H1) as (k & Hk & Hin).
        rewrite Hk in E. injection E as ->. exact (Fa Hin).
      + exfalso. destruct (wf_card_answers0 c2 H2) as (k & Hk & Hin).
        rewrite Hk in E. injection E as ->. exact (Fa Hin).
      + reflexivity. }
  assert (Hin : In cid (map c_id (st_cards s ++ [nrow]))).
  { rewrite map_app. apply in_or_app. right. left. reflexivity. }
  exact (wf_link_tags_ok _ _ _ _ _ W2 Hin Hl).
Qed.

Lemma wf_update_all b s x s' :
  well_formed s -> update_all b s = Ok (x, s') -> well_formed s'.
Proof.
  revert s. induction b as [|u us IH]; intros s W H; [injection H as _ <-; exact W|].
  cbn [update_all] in H. apply bind_ok in H. destruct H as (y & s1 & H0 & H1).
  exact (IH s1 (wf_update_one _ _ _ _ W H0) H1).
Qed.

Lemma wf_add_all b s x s' :
  well_formed s -> add_all b s = Ok (x, s') -> well_formed s'.
Proof.
  revert s. induction b as [|nc ncs IH]; intros s W H; [injection H as _ <-; exact W|].
  cbn [add_all] in H. apply bind_ok in H. destruct H as (y & s1 & H0 & H1).
  exact (IH s1 (wf_add_one _ _ _ _ W H0) H1).
Qed.

Lemma add_all_app b1 b2 s :
  add_all (b1 ++ b2) s = bind (add_all b1) (fun _ => add_all b2) s.
Proof.
  revert s. induction b1 as [|nc b1 IH]; intros s; [reflexivity|].
  cbn [add_all app]. unfold bind. destruct (add_one nc s) as [[a s1]|e];
  [|reflexivity]. specialize (IH s1). unfold bind in IH. exact IH.
Qed.

Lemma fixture_well_formed : well_formed fixture.
Proof.
  split; simpl.
  - repeat constructor; simpl; intuition discriminate.
  - repeat constructor; simpl; intuition discriminate.
  - repeat constructor; simpl; intuition discriminate.
  - repeat constructor; simpl; intuition discriminate.
  - repeat constructor; simpl; intuition discriminate.
  - intros ct [<-|[]]. left. reflexivity.
  - intros ct [<-|[]]. left. reflexivity.
  - intros c [<-|[]]. exists 1. split; [reflexivity|left; reflexivity].
  - intros c1 c2 [<-|[]] [<-|[]] _ _. reflexivity.
Qed.

(** X1: both writers, whether they commit or fail, keep the constraints
    of the schema (primary keys, [tags.name UNIQUE], the foreign keys of
    [card_tags]) and the one-to-one reference of every card to an
    existing answers row. *)
Theorem writers_keep_well_formed s :
  well_formed s ->
  (forall b, well_formed (snd (update_cards b s))) /\
  (forall nb, well_formed (snd (add_cards nb s))).
Proof.
  intros W. split.
  - intros b. unfold update_cards. destruct (update_all b s) as [[x s']|e] eqn:H;
    [exact (wf_update_all _ _ _ _ W H)|exact W].
  - intros nb. unfold add_cards. destruct (add_all nb s) as [[x s']|e] eqn:H;
    [exact (wf_add_all _ _ _ _ W H)|exact W].
Qed.

(** ** How calls compose *)

(** X2: one [update_cards] call on a concatenated batch is the first part
    followed by the second, except that a failure of the second part
    also undoes the first: the whole call is one transaction. *)
Theorem update_cards_app b1 b2 s :
  update_cards (b1 ++ b2) s =
  match update_cards b1 s with
  | (Ok _, s1) =>
      match update_cards b2 s1 with
      | (Ok _, s2) => (Ok tt, s2)
      | (Err e, _) => (Err e, s)
      end
  | (Err e, _) => (Err e, s)
  end.
Proof.
  unfold update_cards. rewrite update_all_app. unfold bind.
  destruct (update_all b1 s) as [[x s1]|e]; [|reflexivity].
  destruct (update_all b2 s1) as [[y s2]|e]; reflexivity.
Qed.

(** X3: the same for [add_cards]: the loop runs before the single
    [conn.commit()], so a failure of a later card discards the earlier
    ones of the same call. *)
Theorem add_cards_app b1 b2 s :
  add_cards (b1 ++ b2) s =
  match add_cards b1 s with
  | (Ok _, s1) =>
      match add_cards b2 s1 with
      | (Ok _, s2) => (Ok tt, s2)
      | (Err e, _) => (Err e, s)
      end
  | (Err e, _) => (Err e, s)
  end.
Proof.
  unfold add_cards. rewrite add_all_app. unfold bind.
  destruct (add_all b1 s) as [[x s1]|e]; [|reflexivity].
  destruct (add_all b2 s1) as [[y s2]|e]; reflexivity.
Qed.

(** ** What [add_cards] adds *)




(** ** What [load_cards] returns *)

Lemma left_join_tags_pair s c a :
  Forall (fun r => fst r = (c, a)) (left_join_tags s c a).
Proof.
  unfold left_join_tags.
  destruct (sort_by_tag _) as [|ct0 cts]; [repeat constructor|].
  apply Forall_forall. intros r Hr. apply in_flat_map in Hr.
  destruct Hr as (ct & _ & Hr).
  destruct (filter _ (st_tags s)) as [|t0 ts]; [destruct Hr as [<-|[]]; reflexivity|].
  apply in_map_iff in Hr. destruct Hr as (t & <- & _). reflexivity.
Qed.

Lemma joined_rows_in s r :
  In r (joined_rows s) ->
  In (fst (fst r)) (st_cards s) /\ In (snd (fst r)) (st_answers s) /\
  key_matches (c_answers_id (fst (fst r))) (a_id (snd (fst r))) = true.
Proof.
  unfold joined_rows. intros H. apply in_flat_map in H. destruct H as (c & Hc & H).
  apply in_flat_map in H. destruct H as (a & Ha & H). apply filter_In in Ha.
  pose proof (left_join_tags_pair s c a) as P. rewrite Forall_forall in P.
  rewrite (P r H). simpl. destruct Ha as [Ha Hk]. auto.
Qed.

Lemma grouped_rows_in s c a tg :
  In (c, a, tg) (grouped_rows s) ->
  In c (st_cards s) /\ In a (st_answers s) /\ key_matches (c_answers_id c) (a_id a) = true.
Proof.
  unfold grouped_rows. intros H. apply in_flat_map in H. destruct H as (g & _ & H).
  destruct (group_rows g (joined_rows s)) as [|[[c0 a0] n0] rs] eqn:E; [destruct H|].
  destruct H as [H|[]]. injection H as -> -> _.
  assert (Hr : In (c, a, n0) (joined_rows s)).
  { assert (Hg : In (c, a, n0) (group_rows g (joined_rows s)))
      by (rewrite E; left; reflexivity).
    unfold group_rows in Hg. apply filter_In in Hg. apply Hg. }
  exact (joined_rows_in s _ Hr).
Qed.

Lemma group_rows_head g rows r rs :
  group_rows g rows = r :: rs -> row_card_id r = g.
Proof.
  intros E. assert (H : In r (group_rows g rows)) by (rewrite E; left; reflexivity).
  unfold group_rows in H. apply filter_In in H. apply Z.eqb_eq. apply H.
Qed.

(** The one row of [GROUP BY] for a card joined to some answers row. *)
Lemma grouped_rows_has_card s c a :
  NoDup (map c_id (st_cards s)) -> In c (st_cards s) -> In a (st_answers s) ->
  key_matches (c_answers_id c) (a_id a) = true ->
  exists a' tg, In (c, a', tg) (grouped_rows s) /\
    (forall r, In r (grouped_rows s) -> c_id (fst (fst r)) = c_id c -> r = (c, a', tg)).
Proof.
  intros Hnd Hc Ha Hk.
  destruct (left_join_tags_head s c a) as (tg0 & rest & Hh).
  assert (Hr : In (c, a, tg0) (joined_rows s)).
  { unfold joined_rows. apply in_flat_map. exists c. split; [exact Hc|].
    apply in_flat_map. exists a. split; [apply filter_In; auto|]. rewrite Hh. left. reflexivity. }
  assert (Hg : In (c, a, tg0) (group_rows (c_id c) (joined_rows s))).
  { apply filter_In. split; [exact Hr|]. apply Z.eqb_refl. }
  destruct (group_rows (c_id c) (joined_rows s)) as [|[[c0 a0] n0] rs] eqn:E; [destruct Hg|].
  assert (H0 : In (c0, a0, n0) (group_rows (c_id c) (joined_rows s))) by (rewrite E; left; reflexivity).
  apply filter_In in H0. destruct H0 as [H0 E0]. apply Z.eqb_eq in E0.
  destruct (joined_rows_in s _ H0) as (Hc0 & _ & _). simpl in Hc0, E0.
  assert (c0 = c) as -> by exact (NoDup_map_inj c_id _ _ _ Hnd Hc0 Hc E0).
  exists a0, (group_concat (row_names (group_rows (c_id c) (joined_rows s)))). split.
  - unfold grouped_rows. apply in_flat_map. exists (c_id c). split.
    + apply nodup_In. apply in_map_iff. exists (c, a, tg0). split; [reflexivity|exact Hr].
    + rewrite E. left. reflexivity.
  - intros r Hr' Er. unfold grouped_rows in Hr'. apply in_flat_map in Hr'.
    destruct Hr' as (g & _ & Hr').
    destruct (group_rows g (joined_rows s)) as [|[[c1 a1] n1] rs1] eqn:E1; [destruct Hr'|].
    destruct Hr' as [<-|[]]. simpl in Er.
    pose proof (group_rows_head _ _ _ _ E1) as Eg. unfold row_card_id in Eg. simpl in Eg. subst g.
    rewrite Er, E in E1. injection E1 as <- <- <- <-. rewrite E. reflexivity.
Qed.

Lemma map_option_none {A B} (f : A -> option B) l :
  map_option f l = None -> exists x, In x l /\ f x = None.
Proof.
  induction l as [|x l IH]; simpl; [discriminate|].
  destruct (f x) eqn:Ef.
  - destruct (map_option f l) eqn:Em; [discriminate|]. intros _.
    destruct (IH eq_refl) as (y & Hy & Ey). exists y. split; [right; exact Hy|exact Ey].
  - intros _. exists x. split; [left; reflexivity|exact Ef].
Qed.

Lemma decode_images_none J v :
  decode_images J v = None <-> exists t, v = Some t /\ t <> EmptyString /\ J t = None.
Proof.
  unfold decode_images. destruct v as [[|ch t]|]; split.
  - discriminate.
  - intros (t & E & Hn & _). injection E as <-. congruence.
  - intros H. exists (String ch t). split; [reflexivity|]. split; [discriminate|exact H].
  - intros (t' & E & _ & H). injection E as <-. exact H.
  - discriminate.
  - intros (t & E & _). discriminate.
Qed.

Lemma row_to_card_none J c a tg :
  row_to_card J (c, a, tg) = None <-> decode_images J (c_images c) = None.
Proof.
  unfold row_to_card. destruct (decode_images J (c_images c)); split; congruence.
Qed.

Lemma Forall2_map_ids J rows l :
  Forall2 (fun r x => row_to_card J r = Some x) rows l ->
  map id l = map (fun r => c_id (fst (fst r))) rows.
Proof.
  induction 1 as [|r x rows l Hr _ IH]; simpl; [reflexivity|].
  rewrite (row_to_card_id _ _ _ Hr), IH. reflexivity.
Qed.

Lemma nodup_const_prefix (k : Z) ks rest :
  ks <> [] -> Forall (fun x => x = k) ks -> ~ In k rest ->
  nodup Z.eq_dec (ks ++ rest) = k :: nodup Z.eq_dec rest.
Proof.
  induction ks as [|k' ks IH]; intros Hne Hall Hk; [congruence|].
  inversion Hall as [|? ? Ek Hall']; subst. simpl.
  destruct ks as [|k2 ks].
  - simpl. destruct (in_dec Z.eq_dec k rest); [contradiction|reflexivity].
  - destruct (in_dec Z.eq_dec k ((k2 :: ks) ++ rest)) as [_|Hn].
    + apply IH; [discriminate|exact Hall'|exact Hk].
    + exfalso. apply Hn. inversion Hall' as [|? ? E2 _]; subst. left. reflexivity.
Qed.

(** X5: over a store keeping the constraints of the schema, [load_cards]
    returns one entry per card row, in the order of the [cards] table:
    no card is lost or repeated by the joins. *)
Theorem load_cards_one_per_card J s l :
  well_formed s -> load_cards J s = Some l -> map id l = map c_id (st_cards s).
Proof.
  intros W Hl. apply map_option_Forall2 in Hl. rewrite (Forall2_map_ids _ _ _ Hl).
  assert (Hall : forall c, In c (st_cards s) ->
            exists r, In r (grouped_rows s) /\ c_id (fst (fst r)) = c_id c /\
              (forall r', In r' (grouped_rows s) -> c_id (fst (fst r')) = c_id c -> r' = r)).
  { intros c Hc. destruct (wf_card_answers s W c Hc) as (k & Hk & Hin).
    apply in_map_iff in Hin. destruct Hin as (a & Ea & Ha).
    destruct (grouped_rows_has_card s c a (wf_card_ids s W) Hc Ha)
      as (a' & tg & Hin & Huniq).
    { rewrite Hk, <- Ea. apply Z.eqb_refl. }
    exists (c, a', tg). split; [exact Hin|]. split; [reflexivity|exact Huniq]. }
  assert (Hin : forall r, In r (grouped_rows s) -> In (fst (fst r)) (st_cards s)).
  { intros [[c a] tg] Hr. apply (grouped_rows_in s c a tg Hr). }
  (* both lists list each card identifier once, in the order of the groups *)
  unfold grouped_rows. cbv zeta.
  assert (Hnodup : nodup Z.eq_dec (map row_card_id (joined_rows s)) = map c_id (st_cards s)).
  { unfold joined_rows. pose proof (wf_card_ids s W) as Hnd.
    assert (Hblk : forall c, In c (st_cards s) ->
              flat_map (fun a => left_join_tags s c a)
                (filter (fun a => key_matches (c_answers_id c) (a_id a)) (st_answers s)) <> [] /\
              Forall (fun r => row_card_id r = c_id c)
                (flat_map (fun a => left_join_tags s c a)
                  (filter (fun a => key_matches (c_answers_id c) (a_id a)) (st_answers s)))).
    { intros c Hc. split.
      - destruct (wf_card_answers s W c Hc) as (k & Hk & Hin').
        apply in_map_iff in Hin'. destruct Hin' as (a & Ea & Ha).
        destruct (left_join_tags_head s c a) as (tg0 & rest & Hh).
        intros E. assert (Hr : In (c, a, tg0) (flat_map (fun a => left_join_tags s c a)
                  (filter (fun a => key_matches (c_answers_id c) (a_id a)) (st_answers s)))).
        { apply in_flat_map. exists a. split; [|rewrite Hh; left; reflexivity].
          apply filter_In. split; [exact Ha|]. rewrite Hk, <- Ea. apply Z.eqb_refl. }
        rewrite E in Hr. destruct Hr.
      - pose proof (card_rows_of s c) as P. rewrite Forall_forall in P |- *.
        intros r Hr. unfold row_card_id. rewrite (P r Hr). reflexivity. }
    clear Hall Hin Hl. revert Hnd Hblk. generalize (st_cards s) as cs.
    induction cs as [|c cs IH]; intros Hnd Hblk; [reflexivity|].
    simpl. inversion Hnd as [|? ? Hc Hnd']; subst.
    destruct (Hblk c (or_introl eq_refl)) as [Hne Hall].
    rewrite map_app, (nodup_const_prefix (c_id c)).
    - f_equal. apply IH; [exact Hnd'|]. intros c' Hc'. apply Hblk. right. exact Hc'.
    - intros E. apply map_eq_nil in E. exact (Hne E).
    - apply Forall_map. exact Hall.
    - intros Hin'. apply in_map_iff in Hin'. destruct Hin' as (r & E & Hr).
      apply in_flat_map in Hr. destruct Hr as (c' & Hc' & Hr).
      destruct (Hblk c' (or_intror Hc')) as [_ Hall'].
      rewrite Forall_forall in Hall'. rewrite (Hall' r Hr) in E.
      apply Hc. rewrite <- E. apply in_map. exact Hc'. }
  rewrite Hnodup.
  assert (Hgen : forall cs, (forall c, In c cs -> In c (st_cards s)) ->
    map (fun r => c_id (fst (fst r)))
      (flat_map (fun g => match group_rows g (joined_rows s) with
                          | (c, a, _) :: _ =>
                              [(c, a, group_concat (row_names (group_rows g (joined_rows s))))]
                          | [] => []
                          end) (map c_id cs)) = map c_id cs).
  { induction cs as [|c cs IH]; intros Hsub; [reflexivity|]. simpl.
    destruct (Hall c (Hsub c (or_introl eq_refl))) as (r & Hr & Er & _).
    unfold grouped_rows in Hr. cbv zeta in Hr. apply in_flat_map in Hr.
    destruct Hr as (g & _ & Hr).
    destruct (group_rows g (joined_rows s)) as [|[[c1 a1] n1] rs1] eqn:E1; [destruct Hr|].
    destruct Hr as [<-|[]]. simpl in Er.
    pose proof (group_rows_head _ _ _ _ E1) as Eg. unfold row_card_id in Eg. simpl in Eg. subst g.
    try rewrite Er in E1. rewrite E1. simpl. f_equal; [exact Er|]. apply IH. intros c' Hc'. apply Hsub. right. exact Hc'. }
  apply Hgen. auto.
Qed.

(** X6: the inner join of [load_cards] drops a card whose [answers_id]
    matches no row of [answers]: no entry of the result carries its id. *)
Theorem load_cards_omits_unjoined J s c l :
  NoDup (map c_id (st_cards s)) -> In c (st_cards s) ->
  (forall a, In a (st_answers s) -> key_matches (c_answers_id c) (a_id a) = false) ->
  load_cards J s = Some l -> ~ In (c_id c) (map id l).
Proof.
  intros Hnd Hc Hno Hl Hin. apply in_map_iff in Hin. destruct Hin as (x & Ex & Hx).
  apply map_option_Forall2 in Hl.
  destruct (Forall2_In_r _ _ _ _ Hl Hx) as ([[c' a'] tg] & Hr & Hrx).
  destruct (grouped_rows_in s c' a' tg Hr) as (Hc' & Ha' & Hk).
  rewrite (row_to_card_id _ _ _ Hrx) in Ex. simpl in Ex.
  assert (c' = c) as -> by exact (NoDup_map_inj c_id _ _ _ Hnd Hc' Hc Ex).
  rewrite (Hno a' Ha') in Hk. discriminate.
Qed.

(** X7: with distinct card ids, [load_cards] fails (the [JSONDecodeError]
    of [json.loads]) exactly when some card that joins an answers row has a
    non-empty [images] text that does not decode. *)
Theorem load_cards_fails_iff J s :
  NoDup (map c_id (st_cards s)) ->
  (load_cards J s = None <->
   exists c a t, In c (st_cards s) /\ In a (st_answers s) /\
     key_matches (c_answers_id c) (a_id a) = true /\
     c_images c = Some t /\ t <> EmptyString /\ J t = None).
Proof.
  intros Hnd. split.
  - unfold load_cards. intros H. apply map_option_none in H.
    destruct H as ([[c a] tg] & Hr & Hn).
    destruct (grouped_rows_in s c a tg Hr) as (Hc & Ha & Hk).
    apply row_to_card_none, decode_images_none in Hn.
    destruct Hn as (t & Et & Ht & Hj). exists c, a, t. auto 7.
  - intros (c & a & t & Hc & Ha & Hk & Et & Ht & Hj).
    destruct (load_cards J s) as [l|] eqn:E; [|reflexivity]. exfalso.
    destruct (grouped_rows_has_card s c a Hnd Hc Ha Hk) as (a' & tg & Hr & _).
    unfold load_cards in E. apply map_option_Forall2 in E.
    destruct (Forall2_In_l _ _ _ _ E Hr) as (x & _ & Hx).
    assert (Hn : row_to_card J (c, a', tg) = None).
    { apply row_to_card_none, decode_images_none. exists t. auto. }
    congruence.
Qed.

(** ** The endpoints *)

Lemma update_all_ids b s x s' :
  update_all b s = Ok (x, s') -> forall u, In u b -> In (u_id u) (map c_id (st_cards s)).
Proof.
  revert s. induction b as [|u us IH]; intros s H v Hv; [destruct Hv|].
  cbn [update_all] in H. apply bind_ok in H. destruct H as (y & s1 & H0 & H1).
  destruct (update_one_ok _ _ _ _ H0) as (Hex & Hc & _).
  destruct Hv as [<-|Hv].
  - apply existsb_exists in Hex. destruct Hex as (c & Hc' & E). apply Z.eqb_eq in E.
    rewrite <- E. apply in_map. exact Hc'.
  - rewrite <- (map_c_id_update u (st_cards s)), <- Hc. exact (IH _ H1 v Hv).
Qed.




Lemma map_option_in_none {A B} (f : A -> option B) l x :
  In x l -> f x = None -> map_option f l = None.
Proof.
  induction l as [|y l IH]; intros Hx Hn; [destruct Hx|]. simpl.
  destruct Hx as [->|Hx]; [rewrite Hn; reflexivity|].
  destruct (f y); [|reflexivity]. rewrite (IH Hx Hn). reflexivity.
Qed.

(** X9: [POST /cards] with a batch that names a card id absent from the
    store answers 500, with the text of the exception raised, and leaves
    the store unchanged, whatever the position of that element. *)
Theorem api_save_cards_unknown_id data u s :
  In u data -> ~ In (u_id u) (map c_id (st_cards s)) ->
  exists e, api_save_cards (Decoded data) s = (http_error 500 (error_text e), s).
Proof.
  intros Hu Hn. unfold api_save_cards, update_cards.
  destruct (update_all data s) as [[x s']|e] eqn:E.
  - exfalso. exact (Hn (update_all_ids _ _ _ _ E u Hu)).
  - exists e. reflexivity.
Qed.


End Writers.

(** * Examples

    The properties at concrete stores, with [str.lower] on ASCII text. *)

Lemma multi_store_well_formed : well_formed multi_store.
Proof.
  split; simpl.
  - repeat constructor; simpl; intuition discriminate.
  - repeat constructor; simpl; intuition discriminate.
  - repeat constructor; simpl; intuition discriminate.
  - repeat constructor; simpl; intuition discriminate.
  - repeat constructor; simpl; intuition discriminate.
  - intros ct Hct. destruct Hct as [<-|[<-|[<-|[<-|[]]]]]; simpl; intuition.
  - intros ct Hct. destruct Hct as [<-|[<-|[<-|[<-|[]]]]]; simpl; intuition.
  - intros c Hc. destruct Hc as [<-|[<-|[<-|[]]]]; eexists;
      (split; [reflexivity|simpl; intuition]).
  - intros c1 c2 H1 H2 _ E.
    destruct H1 as [<-|[<-|[<-|[]]]]; destruct H2 as [<-|[<-|[<-|[]]]];
      first [reflexivity | discriminate E].
Qed.

(** ** C1 *)

Lemma update_cards_rollback_witness :
  update_cards ascii_lower [upd 1 "F" ["python"]; upd 999 "G" []] fixture
  = (Err (NotFound 999), fixture) /\
  update_cards ascii_lower [upd 1 "F" ["python"]; upd (2 ^ 70) "G" []] fixture
  = (Err OverflowError, fixture) /\
  update_cards ascii_lower [upd 1 "F" ["x"; "X"]; upd 999 "G" []] fixture
  = (Err IntegrityError, fixture).
Proof.
  split; [|split].
  - refine (proj1 (proj2 (update_cards_rollback ascii_lower))
              [upd 1 "F" ["python"]] (upd 999 "G" []) [] fixture
              (snd (update_cards ascii_lower [upd 1 "F" ["python"]] fixture)) _ _);
    vm_compute; reflexivity.
  - refine (proj1 (proj2 (update_cards_rollback ascii_lower))
              [upd 1 "F" ["python"]] (upd (2 ^ 70) "G" []) [] fixture
              (snd (update_cards ascii_lower [upd 1 "F" ["python"]] fixture)) _ _);
    vm_compute; reflexivity.
  - refine (proj2 (proj2 (update_cards_rollback ascii_lower))
              [upd 1 "F" ["x"; "X"]] [upd 999 "G" []] fixture IntegrityError fixture _);
    vm_compute; reflexivity.
Defined.

(** C1 (counterexample): a batch that names an unknown card identifier
    can fail with another error than NotFound: here the first entry,
    whose tags repeat a name up to case, raises the integrity error of
    [card_tags] before the unknown identifier 999 is reached. The store
    is rolled back all the same. *)
Lemma update_cards_unknown_id_other_error :
  existsb (fun c => c_id c =? 999) (st_cards fixture) = false /\
  update_cards ascii_lower [upd 1 "F" ["x"; "X"]; upd 999 "G" []] fixture
  = (Err IntegrityError, fixture).
Proof. split; vm_compute; reflexivity. Qed.

(** ** C2 *)

Lemma add_cards_roundtrip_witness :
  exists s', add_cards ascii_lower
               [{| n_front := "A"; n_back := "B"; n_tags := ["X"; "Y"] |}] fixture
             = (Ok tt, s') /\
  forall l, load_cards sample_json_loads s' = Some l ->
  exists x,
    filter (fun x => negb (existsb (fun c => c_id c =? id x) (st_cards fixture))) l = [x] /\
    front x = "A" /\ back x = "B" /\ Permutation (tags x) ["x"; "y"] /\
    streak x = 0 /\ retired x = false /\
    answers x = {| correct := 0; partial := 0; incorrect := 0 |} /\
    last_asked x = "2024-01-01" /\ next_review x = "2024-01-01".
Proof.
  apply (add_cards_roundtrip ascii_lower sample_json_loads fixture
           {| n_front := "A"; n_back := "B"; n_tags := ["X"; "Y"] |}).
  - vm_compute. repeat constructor; simpl; intuition discriminate.
  - vm_compute. repeat constructor; simpl; intuition discriminate.
  - intros ct [<-|[]]. left. reflexivity.
  - vm_compute. repeat constructor; simpl; intuition discriminate.
  - vm_compute. repeat constructor; discriminate.
Defined.

(** ** C3 *)

Lemma update_cards_replace_tags_witness :
  exists s', update_cards ascii_lower [upd 1 "Test Front" ["b"; "C"]] tagged_store
             = (Ok tt, s') /\
    (forall tg, In tg (st_tags tagged_store) -> In tg (st_tags s')) /\
    forall l, load_cards sample_json_loads s' = Some l ->
    exists x, filter (fun x => id x =? 1) l = [x] /\ Permutation (tags x) ["b"; "c"].
Proof.
  apply (proj1 (update_cards_replace_tags ascii_lower) sample_json_loads tagged_store
           (upd 1 "Test Front" ["b"; "C"])
           (nth 0 (st_cards fixture) untagged_card)
           (nth 0 (st_answers fixture) untagged_answers)).
  - vm_compute. repeat constructor; simpl; intuition discriminate.
  - vm_compute. repeat constructor; simpl; intuition discriminate.
  - left. reflexivity.
  - reflexivity.
  - vm_compute. reflexivity.
  - vm_compute. repeat constructor; simpl; intuition discriminate.
  - vm_compute. repeat constructor; discriminate.
  - vm_compute. reflexivity.
Defined.

(** ** C4 *)

Lemma resolve_tag_case_insensitive_witness :
  (exists i s1, resolve_tag ascii_lower "Python" fixture = Ok (i, s1) /\
                resolve_tag ascii_lower "pYTHON" s1 = Ok (i, s1)) /\
  (count_name "python"
     (st_tags (snd (update_cards ascii_lower [upd 1 "F" ["PYTHON"; "Go"]] fixture))) <= 1)%nat.
Proof.
  split.
  - apply (proj1 (resolve_tag_case_insensitive ascii_lower)). vm_compute. reflexivity.
  - apply (proj2 (resolve_tag_case_insensitive ascii_lower) "python"
             [upd 1 "F" ["PYTHON"; "Go"]] []).
    vm_compute. constructor.
Defined.

(** ** C5 *)

Lemma update_cards_stores_witness :
  let u := {| u_id := 2; u_front := "Q2"; u_back := "R2"; u_retired := true;
              u_streak := 4; u_answers := {| correct := 1; partial := 0; incorrect := 2 |};
              u_tags := ["go"] |} in
  (exists c, In c (st_cards (snd (update_cards ascii_lower [upd 1 "F" []; u] untagged_store))) /\
             c_id c = u_id u) /\
  forall c, In c (st_cards (snd (update_cards ascii_lower [upd 1 "F" []; u] untagged_store))) ->
    c_id c = u_id u ->
    stored_fields u c /\
    forall a, In a (st_answers (snd (update_cards ascii_lower [upd 1 "F" []; u] untagged_store))) ->
      c_answers_id c = Some (a_id a) -> stored_counts u a.
Proof.
  intros u.
  apply (update_cards_stores ascii_lower [upd 1 "F" []; u] untagged_store).
  - vm_compute. repeat constructor; simpl; intuition discriminate.
  - vm_compute. repeat constructor; simpl; intuition discriminate.
  - intros c1 c2 [<-|[<-|[]]] [<-|[<-|[]]]; simpl; intros _ E;
    first [reflexivity | injection E as E; discriminate].
  - vm_compute. reflexivity.
  - right. left. reflexivity.
Defined.

(** C5 (counterexample): a batch naming the fixture's card twice, with
    fronts "p" then "q", commits, every identifier existing; the front
    stored afterwards is "q", not the value "p" of the first entry. *)
Lemma update_cards_repeated_id :
  let b := [upd 1 "p" ["python"]; upd 1 "q" ["python"]] in
  fst (update_cards ascii_lower b fixture) = Ok tt /\
  map c_front (st_cards (snd (update_cards ascii_lower b fixture))) = ["q"].
Proof. split; vm_compute; reflexivity. Qed.

(** ** C6 *)

Lemma load_cards_untagged_witness :
  exists x, filter (fun x => id x =? 2) untagged_loaded = [x] /\ tags x = [].
Proof.
  apply (load_cards_untagged sample_json_loads untagged_store untagged_card
           untagged_answers untagged_loaded).
  - vm_compute. repeat constructor; simpl; intuition discriminate.
  - right. left. reflexivity.
  - vm_compute. reflexivity.
  - intros ct [<-|[]]. discriminate.
  - vm_compute. reflexivity.
Defined.

(** ** C7 *)

Lemma load_cards_tags_roundtrip_witness :
  exists x, filter (fun x => id x =? 1) tagged_loaded = [x] /\
    Permutation (tags x) (linked_names tagged_store 1) /\
    (NoDup (map t_name (st_tags tagged_store)) ->
     NoDup (map ct_tag_id (filter (fun ct => ct_card_id ct =? 1) (st_card_tags tagged_store))) ->
     NoDup (tags x)).
Proof.
  apply (load_cards_tags_roundtrip sample_json_loads tagged_store
           (nth 0 (st_cards fixture) untagged_card) (nth 0 (st_answers fixture) untagged_answers)
           tagged_loaded).
  - vm_compute. repeat constructor; simpl; intuition discriminate.
  - left. reflexivity.
  - vm_compute. reflexivity.
  - vm_compute. repeat constructor; discriminate.
  - vm_compute. reflexivity.
Defined.

(** C7 (counterexample): the writers store a tag name containing a
    comma as it is; once the fixture's card is linked to "a,b" and "a",
    its two linked names come back from [load_cards] as three entries,
    "a", "b" and "a": a name split, another merged, one repeated. *)
Lemma load_cards_tag_comma :
  let s := snd (update_cards ascii_lower [upd 1 "F" ["A,B"; "a"]] fixture) in
  linked_names s 1 = ["a,b"; "a"] /\
  option_map (map tags) (load_cards sample_json_loads s) = Some [["a"; "b"; "a"]].
Proof. split; vm_compute; reflexivity. Qed.

(** ** C8 *)

Lemma update_cards_frame_witness :
  let b := [upd 1 "F" ["go"]] in
  Forall2 (card_frame b) (st_cards fixture) (st_cards (snd (update_cards ascii_lower b fixture))) /\
  Forall2 (answers_frame (st_cards fixture) b) (st_answers fixture)
    (st_answers (snd (update_cards ascii_lower b fixture))) /\
  filter (fun ct => negb (in_batch b (ct_card_id ct)))
    (st_card_tags (snd (update_cards ascii_lower b fixture))) =
  filter (fun ct => negb (in_batch b (ct_card_id ct))) (st_card_tags fixture).
Proof.
  intros b. apply (update_cards_frame ascii_lower). vm_compute. reflexivity.
Defined.

(** ** C9 *)

Lemma load_cards_retired_images_witness :
  exists c, In c (st_cards fixture) /\ id fixture_card = c_id c /\
    (retired fixture_card = true <-> exists z, c_retired c = Some z /\ z <> 0) /\
    match c_images c with
    | None | Some EmptyString => images fixture_card = JArr []
    | Some t => sample_json_loads t = Some (images fixture_card)
    end.
Proof.
  apply (load_cards_retired_images sample_json_loads fixture [fixture_card]).
  - vm_compute. reflexivity.
  - left. reflexivity.
Defined.

(** ** C10 *)

Lemma duplicate_tags_fail_witness :
  update_cards ascii_lower [upd 1 "F" ["x"; "X"]] fixture = (Err IntegrityError, fixture) /\
  add_cards ascii_lower [{| n_front := "N"; n_back := "B"; n_tags := ["Go"; "gO"] |}] fixture
  = (Err IntegrityError, fixture).
Proof.
  split.
  - apply (proj1 (duplicate_tags_fail ascii_lower) _ _ (upd 1 "F" ["x"; "X"])).
    + left. reflexivity.
    + simpl. intros H. inversion H as [|? ? Hn _]. apply Hn. left. reflexivity.
    + intros u' [<-|[]]. reflexivity.
    + intros u' [<-|[]]. reflexivity.
  - apply (proj2 (duplicate_tags_fail ascii_lower) _ _
             {| n_front := "N"; n_back := "B"; n_tags := ["Go"; "gO"] |}).
    + left. reflexivity.
    + simpl. intros H. inversion H as [|? ? Hn _]. apply Hn. left. reflexivity.
Defined.

(** ** Further properties *)

Lemma writers_keep_well_formed_witness :
  well_formed (snd (update_cards ascii_lower [upd 1 "F" ["Go"; "python"]] multi_store)) /\
  well_formed (snd (add_cards ascii_lower
                      [{| n_front := "A"; n_back := "B"; n_tags := ["go"] |}] multi_store)).
Proof.
  split; [apply (proj1 (writers_keep_well_formed ascii_lower multi_store multi_store_well_formed))
         |apply (proj2 (writers_keep_well_formed ascii_lower multi_store multi_store_well_formed))].
Defined.


Lemma load_cards_one_per_card_witness :
  well_formed multi_store /\
  exists l, load_cards sample_json_loads multi_store = Some l /\
            map id l = map c_id (st_cards multi_store).
Proof.
  split; [exact multi_store_well_formed|].
  destruct (load_cards sample_json_loads multi_store) as [l|] eqn:E;
    [|vm_compute in E; discriminate].
  exists l. split; [reflexivity|].
  apply (load_cards_one_per_card sample_json_loads multi_store l multi_store_well_formed E).
Defined.

Lemma load_cards_omits_unjoined_witness :
  exists l, load_cards sample_json_loads orphan_store = Some l /\
            ~ In (c_id orphan_card) (map id l).
Proof.
  destruct (load_cards sample_json_loads orphan_store) as [l|] eqn:E.
  - exists l. split; [reflexivity|].
    apply (load_cards_omits_unjoined sample_json_loads orphan_store orphan_card l).
    + simpl. apply NoDup_cons; [intros [H|[]]; discriminate|].
      apply NoDup_cons; [intros []|apply NoDup_nil].
    + simpl. right. left. reflexivity.
    + intros a Ha. simpl in Ha. destruct Ha as [<-|[]]. reflexivity.
    + exact E.
  - vm_compute in E. discriminate.
Defined.

Lemma load_cards_fails_iff_witness :
  NoDup (map c_id (st_cards bad_image_store)) /\
  load_cards sample_json_loads bad_image_store = None.
Proof.
  assert (Hnd : NoDup (map c_id (st_cards bad_image_store))).
  { simpl. apply NoDup_cons; [intros [H|[]]; discriminate|].
      apply NoDup_cons; [intros []|apply NoDup_nil]. }
  split; [exact Hnd|].
  apply (load_cards_fails_iff sample_json_loads bad_image_store Hnd).
  exists bad_image_card, untagged_answers, "[oops"%string.
  split; [simpl; right; left; reflexivity|].
  split; [simpl; right; left; reflexivity|].
  split; [reflexivity|]. split; [reflexivity|]. split; [discriminate|reflexivity].
Defined.

Lemma api_save_cards_unknown_id_witness :
  (exists e, api_save_cards ascii_lower (Decoded [upd 1 "x" []; upd 7 "y" []]) fixture =
             (http_error 500 (error_text e), fixture)) /\
  (exists e, api_save_cards ascii_lower (Decoded [upd (2 ^ 70) "y" []; upd 1 "x" []]) fixture =
             (http_error 500 (error_text e), fixture)).
Proof.
  split.
  - apply (api_save_cards_unknown_id ascii_lower _ (upd 7 "y" [])).
    + right. left. reflexivity.
    + simpl. intros [H|[]]. discriminate.
  - apply (api_save_cards_unknown_id ascii_lower _ (upd (2 ^ 70) "y" [])).
    + left. reflexivity.
    + simpl. intros [H|[]]. discriminate.
Defined.

